(** * Forcing-file generator of FjordsSim: a shallow embedding

    This development embeds [examples/create_forcing_files.py]
    (class [ForcingFileGenerator] and the two example callers) and proves
    properties of the arrays it builds and of the files it writes.

    Conventions of the embedding.
    - Python [int]s are [Z]. Python [float]s are modelled twice. The
      main development idealises them as exact rationals [Q], with the
      comparisons of the source ([>], [==]) as [Qlt] and [Qeq]. The
      module [Binary64] embeds the arithmetic of [__init__] and of the
      boundary arrays on binary64 numbers, with rounding, underflow,
      infinities and NaN; the statements that rounding decides are
      proved there.
    - A numpy array of shape (time, Nz, Ny, Nx) is a nested list indexed
      [t], [k], [j], [i], in that order.
    - The netCDF4 dataset is an external collaborator: each call on it is
      recorded as an event in a log and always succeeds.
    - numpy operations follow the numpy reference documentation; the
      exceptions they raise are kept as values of [exn]. An array of any
      shape without a negative entry can be allocated: memory is not
      bounded.
    - Console output ([print]) is not modelled, except that the
      statistics it formats can raise. *)

From Stdlib Require Import ZArith QArith Qround Qminmax Lqa Lia String List Floats.
From stdpp Require Import base tactics option list.

#[local] Set Warnings "-inexact-float".

Local Open Scope string_scope.
Local Open Scope Z_scope.
Local Open Scope Q_scope.
Local Open Scope list_scope.

(** ** Exceptions *)

Inductive exn : Type :=
  | AssertionError (msg : string)
  | IndexError
  | ValueError
  | KeyError (key : string)
  | OverflowError
  | ZeroStep.

(** Computations that may raise: [exn + A], with stdpp's monad notation. *)
#[export] Instance result_ret : MRet (sum exn) := λ A a, inr a.
#[export] Instance result_bind : MBind (sum exn) := λ A B f r,
  match r with inl e => inl e | inr a => f a end.

(** ** Python and numpy primitives *)

(** [range(n)] for a Python int [n]: empty when [n <= 0]. *)
Definition range (n : Z) : list Z := seqZ 0 n.

(** [range(a, b)]. *)
Definition range2 (a b : Z) : list Z := seqZ a (b - a).

(** [x > y] on floats. *)
Definition Qgtb (x y : Q) : bool := negb (Qle_bool x y).

(** [np.arange(start, stop, step)] in exact arithmetic:
    [ceil((stop - start)/step)] values [start + m*step]. A zero step is
    rejected: [ZeroStep]. numpy computes the quotient and the values in
    binary64, see [Binary64.arange]; the two agree where the products and
    the quotient are exact, as they are for whole numbers of seconds
    below [2^53]. *)
Definition arange (start stop step : Q) : exn + list Q :=
  if Qeq_bool step 0 then inl ZeroStep
  else inr ((λ m, start + inject_Z m * step)
              <$> range (Qceiling ((stop - start) / step))).

(** [l[idx]] for an index produced by [enumerate]. *)
Definition list_get {A} (l : list A) (idx : nat) : exn + A :=
  match l !! idx with Some x => inr x | None => inl IndexError end.

(** [d[key]] on a dict kept as an association list in insertion order. *)
Fixpoint dict_get {A} (d : list (string * A)) (key : string) : exn + A :=
  match d with
  | [] => inl (KeyError key)
  | (k, v) :: d' => if String.eqb k key then inr v else dict_get d' key
  end.

(** [d.keys()]. *)
Definition keys {A} (d : list (string * A)) : list string := List.map fst d.

(** ** Four-dimensional arrays, indexed [t][k][j][i] *)

(** An array with elements of type [A]; [array4] has exact numbers, the
    module [Binary64] below has binary64 floats. *)
Abbreviation array4_of A := (list (list (list (list A)))).

Abbreviation array4 := (array4_of Q).

Definition shape4 : Type := Z * Z * Z * Z.

(** The contents of [np.full(shape, v)] for a shape without negative
    entries. *)
Definition full {A} (shape : shape4) (v : A) : array4_of A :=
  let '(nt, nz, ny, nx) := shape in
  replicate (Z.to_nat nt)
    (replicate (Z.to_nat nz) (replicate (Z.to_nat ny) (replicate (Z.to_nat nx) v))).

(** [a[t, k, j, i]] for in-range non-negative indices. *)
Definition cell {A} (a : array4_of A) (t k j i : nat) : option A :=
  depths ← a !! t; rows ← depths !! k; row ← rows !! j; row !! i.

(** [a[t, k, :, i] = f(a[t, k, :, i])], elementwise. *)
Definition upd_col {A} (f : A → A) (t k i : nat) (a : array4_of A) : array4_of A :=
  alter (alter (fmap (alter f i)) k) t a.

(** [a[t, k, j, :] = f(a[t, k, j, :])], elementwise. *)
Definition upd_row {A} (f : A → A) (t k j : nat) (a : array4_of A) : array4_of A :=
  alter (alter (alter (fmap f) j) k) t a.

(** [a[:, k, j, i] = f(a[:, k, j, i])], elementwise. *)
Definition upd_point {A} (f : A → A) (k j i : nat) (a : array4_of A) : array4_of A :=
  fmap (alter (alter (alter f i) j) k) a.

(** numpy's treatment of one integer index [c] on an axis of length
    [extent]: negative indices count from the end, anything outside
    [-extent, extent) is an error. The error is an [IndexError] when [c]
    fits numpy's index type, a signed 64-bit integer; a Python int that
    does not fit is an [OverflowError], raised when the index is
    converted. The extent of an array is below [2^63], so an index within
    the bounds always fits. *)
Definition np_index (c extent : Z) : exn + nat :=
  if (0 <=? c)%Z && (c <? extent)%Z then inr (Z.to_nat c)
  else if (- extent <=? c)%Z && (c <? 0)%Z then inr (Z.to_nat (c + extent))
  else if (- 2 ^ 63 <=? c)%Z && (c <? 2 ^ 63)%Z then inl IndexError
  else inl OverflowError.

(** [np.any] of an elementwise test. *)
Definition any4 {A} (p : A → bool) (a : array4_of A) : bool :=
  existsb (existsb (existsb (existsb p))) a.

(** ** The grid/time context: [ForcingFileGenerator.__init__] *)

(** The attributes of the object. [F] is the type that stands for Python's
    [float]: exact rationals in [ForcingFileGenerator], binary64 numbers
    in the module [Binary64]. *)
Record ForcingFileGenerator_of (F : Type) : Type := {
  Nx : Z;
  Ny : Z;
  Nz : Z;
  start_date : string;
  time_step_hours : F;
  num_steps : Z;
  times : list F
}.

#[global] Arguments Build_ForcingFileGenerator_of {F}.
#[global] Arguments Nx {F}.
#[global] Arguments Ny {F}.
#[global] Arguments Nz {F}.
#[global] Arguments start_date {F}.
#[global] Arguments time_step_hours {F}.
#[global] Arguments num_steps {F}.
#[global] Arguments times {F}.

Abbreviation ForcingFileGenerator := (ForcingFileGenerator_of Q).

Definition __init__ (nx ny nz : Z) (sd : string) (hours : Q) (n : Z)
  : exn + ForcingFileGenerator :=
  ts ← arange 0 (inject_Z n * hours * 3600) (hours * 3600);
  mret {| Nx := nx; Ny := ny; Nz := nz; start_date := sd;
          time_step_hours := hours; num_steps := n; times := ts |}.

(** The shape [(self.num_steps, self.Nz, self.Ny, self.Nx)]. *)
Definition shape {F} (self : ForcingFileGenerator_of F) : shape4 :=
  (num_steps self, Nz self, Ny self, Nx self).

(** ** Effects: the event log *)

Inductive event : Type :=
  | CreateDataset (filepath : string)
  | CreateDimension (name : string) (size : option Z)
  | CreateVariable (name : string) (fill_value : option Q)
  | WriteTime (ts : list Q)
  | Allocate (shape : shape4) (v : Q)
  | WriteVariable (name : string) (a : array4)
  | SetAttr (name : string)
  | CloseDataset.

(** A computation appends events to the log and either raises or
    returns; the log survives an exception. Besides the calls on the
    dataset, the log records the allocation of an array ([Allocate]). *)
Definition M (A : Type) : Type := list event → list event * (exn + A).

#[export] Instance M_ret : MRet M := λ A a log, (log, inr a).
#[export] Instance M_bind : MBind M := λ A B f m log,
  match m log with
  | (log', inl e) => (log', inl e)
  | (log', inr a) => f a log'
  end.

Definition raise {A} (e : exn) : M A := λ log, (log, inl e).
Definition emit (ev : event) : M unit := λ log, (log ++ [ev], inr ()).
Definition lift {A} (r : exn + A) : M A :=
  match r with inl e => raise e | inr a => mret a end.

(** [assert cond, msg]. *)
Definition assert (cond : bool) (msg : string) : M unit :=
  if cond then mret () else raise (AssertionError msg).

(** A [for] loop whose body has effects. *)
Fixpoint for_each {A} (l : list A) (body : A → M unit) : M unit :=
  match l with
  | [] => mret ()
  | x :: l' => body x ;; for_each l' body
  end.

(** [np.full(shape, v)] and [np.zeros(shape)]: a negative dimension is a
    [ValueError]. *)
Definition np_full (sh : shape4) (v : Q) : M array4 :=
  let '(nt, nz, ny, nx) := sh in
  if (0 <=? nt)%Z && (0 <=? nz)%Z && (0 <=? ny)%Z && (0 <=? nx)%Z
  then emit (Allocate sh v) ;; mret (full sh v)
  else raise ValueError.

Definition np_zeros (sh : shape4) : M array4 := np_full sh 0.

(** The dimensions and the time variable, common to both files. *)
Definition open_dataset (self : ForcingFileGenerator) (filepath : string) : M unit :=
  emit (CreateDataset filepath) ;;
  emit (CreateDimension "Nx" (Some (Nx self))) ;;
  emit (CreateDimension "Ny" (Some (Ny self))) ;;
  emit (CreateDimension "Nz" (Some (Nz self))) ;;
  emit (CreateDimension "time" None) ;;
  emit (CreateVariable "time" None) ;;
  emit (WriteTime (times self)).

(** ** Boundary conditions: [create_boundary_file] *)

(** A tracer configuration: the keys a caller may give. *)
Record tracer_config : Type := {
  west : option Q;
  east : option Q;
  north : option Q;
  south : option Q;
  lambda : option Q
}.

(** [tracer_config.get(key, dflt)]. *)
Definition get (o : option Q) (dflt : Q) : Q := default dflt o.

Inductive edge : Type := West | East | South | North.

(** The order in which the four blocks of the loop body run. *)
Definition edges : list edge := [West; East; South; North].

Definition boundary_value (cfg : tracer_config) (e : edge) : Q :=
  match e with
  | West => get (west cfg) (-999.0)
  | East => get (east cfg) (-999.0)
  | North => get (north cfg) (-999.0)
  | South => get (south cfg) (-999.0)
  end.

Definition lambda_val (cfg : tracer_config) : Q := get (lambda cfg) 1e-4.

(** The index range of the inner loop of each block. *)
Definition buffer_range {F} (self : ForcingFileGenerator_of F) (buffer_width : Z)
    (e : edge) : list Z :=
  match e with
  | West => range (Z.min buffer_width (Nx self))
  | East => range2 (Z.max 0 (Nx self - buffer_width)) (Nx self)
  | South => range (Z.min buffer_width (Ny self))
  | North => range2 (Z.max 0 (Ny self - buffer_width)) (Ny self)
  end.

(** The taper weight at loop index [p]. *)
Definition weight (self : ForcingFileGenerator) (buffer_width : Z) (e : edge) (p : Z)
  : Q :=
  match e with
  | West => 1.0 - inject_Z p / inject_Z buffer_width
  | East => 1.0 - inject_Z (Nx self - 1 - p) / inject_Z buffer_width
  | South => 1.0 - inject_Z p / inject_Z buffer_width
  | North => 1.0 - inject_Z (Ny self - 1 - p) / inject_Z buffer_width
  end.

(** West and east write [a[t, k, :, i]], south and north [a[t, k, j, :]]. *)
Definition upd_slice {A} (e : edge)
  : (A → A) → nat → nat → nat → array4_of A → array4_of A :=
  match e with
  | West | East => upd_col
  | South | North => upd_row
  end.

(** One block of the loop body, for the edge [e], at time [t], depth [k].
    The rate [lambda_val * weight] is the exact product here;
    [Binary64.edge_pass] has the rounded one. *)
Definition edge_pass (self : ForcingFileGenerator) (cfg : tracer_config)
    (buffer_width : Z) (t k : Z) (s : array4 * array4) (e : edge)
  : array4 * array4 :=
  let val := boundary_value cfg e in
  if Qgtb val (-990) then
    foldl (λ s p,
        let w := weight self buffer_width e p in
        (upd_slice e (λ _, val) (Z.to_nat t) (Z.to_nat k) (Z.to_nat p) s.1,
         upd_slice e (λ x, Qmax x (lambda_val cfg * w))
                   (Z.to_nat t) (Z.to_nat k) (Z.to_nat p) s.2))
      s (buffer_range self buffer_width e)
  else s.

(** What a block does to one of the two arrays, the update of a slice
    being [h e p]. *)
Definition slice_pass (self : ForcingFileGenerator) (cfg : tracer_config)
    (buffer_width : Z) (h : edge → Z → Q → Q) (t k : Z) (a : array4) (e : edge)
  : array4 :=
  if Qgtb (boundary_value cfg e) (-990) then
    foldl (λ d p, upd_slice e (h e p) (Z.to_nat t) (Z.to_nat k) (Z.to_nat p) d)
          a (buffer_range self buffer_width e)
  else a.

(** The update of [data] and of [data_lambda] in the block of edge [e]. *)
Definition value_upd (cfg : tracer_config) : edge → Z → Q → Q :=
  λ e _ _, boundary_value cfg e.

Definition rate_upd (self : ForcingFileGenerator) (cfg : tracer_config)
    (buffer_width : Z) : edge → Z → Q → Q :=
  λ e p x, Qmax x (lambda_val cfg * weight self buffer_width e p).

(** The loop nest restricted to one of the two arrays. *)
Definition slice_fill (self : ForcingFileGenerator) (cfg : tracer_config)
    (buffer_width : Z) (h : edge → Z → Q → Q) (a : array4) : array4 :=
  foldl (λ d t,
      foldl (λ d k, foldl (slice_pass self cfg buffer_width h t k) d edges)
            d (range (Nz self)))
    a (range (num_steps self)).

(** The loop nest over all time steps and depths. *)
Definition boundary_fill (self : ForcingFileGenerator) (cfg : tracer_config)
    (buffer_width : Z) (s : array4 * array4) : array4 * array4 :=
  foldl (λ s t,
      foldl (λ s k, foldl (edge_pass self cfg buffer_width t k) s edges)
            s (range (Nz self)))
    s (range (num_steps self)).

(** The pair [(data, data_lambda)] for one tracer. *)
Definition boundary_arrays (self : ForcingFileGenerator) (cfg : tracer_config)
    (buffer_width : Z) : array4 * array4 :=
  boundary_fill self cfg buffer_width (full (shape self) (-999.0), full (shape self) 0).

(** The statistics printed per tracer: [data_lambda[0, :, :, :]] needs a
    first time step, [np.min] of an empty selection is a [ValueError]. *)
Definition boundary_stats (data data_lambda : array4) : exn + unit :=
  match data_lambda with
  | [] => inl IndexError
  | _ :: _ =>
      if negb (any4 (λ x, Qgtb x (-990)) data) then inl ValueError
      else if negb (any4 (λ x, Qgtb x 0) data_lambda) then inl ValueError
      else inr ()
  end.

(** The body of the loop over the tracers. *)
Definition boundary_tracer (self : ForcingFileGenerator) (buffer_width : Z)
    (item : string * tracer_config) : M unit :=
  let '(tracer_name, cfg) := item in
  emit (CreateVariable tracer_name (Some (-999.0))) ;;
  emit (CreateVariable (tracer_name ++ "_lambda") (Some 0.0)) ;;
  data ← np_full (shape self) (-999.0);
  data_lambda ← np_zeros (shape self);
  let s := boundary_fill self cfg buffer_width (data, data_lambda) in
  emit (WriteVariable tracer_name s.1) ;;
  emit (WriteVariable (tracer_name ++ "_lambda") s.2) ;;
  lift (boundary_stats s.1 s.2).

Definition create_boundary_file (self : ForcingFileGenerator) (filepath : string)
    (tracers_dict : list (string * tracer_config)) (buffer_width : Z) : M unit :=
  open_dataset self filepath ;;
  for_each tracers_dict (boundary_tracer self buffer_width) ;;
  emit (SetAttr "title") ;;
  emit (SetAttr "created") ;;
  emit (SetAttr "buffer_width") ;;
  emit CloseDataset.

(** ** River forcing: [create_river_file] *)

(** [flux_data[:, k, j, i] = discharge; value_data[:, k, j, i] = tracer_val]
    on arrays of the generator's shape. The error of a site is that of
    its first failing component in the order [k], [j], [i]; where one
    component is out of bounds and another does not fit the index type,
    the statements below do not tell which of the two errors is raised. *)
Definition assign_site (self : ForcingFileGenerator) (site : Z * Z * Z)
    (discharge tracer_val : Q) (s : array4 * array4) : exn + (array4 * array4) :=
  let '(i, j, k) := site in
  k' ← np_index k (Nz self);
  j' ← np_index j (Ny self);
  i' ← np_index i (Nx self);
  mret (upd_point (λ _, discharge) k' j' i' s.1,
        upd_point (λ _, tracer_val) k' j' i' s.2).

(** The cell [[:, k', j', i']] that the index triple of a site addresses. *)
Definition site_addr (self : ForcingFileGenerator) (site : Z * Z * Z)
  : exn + (nat * nat * nat) :=
  let '(i, j, k) := site in
  k' ← np_index k (Nz self);
  j' ← np_index j (Ny self);
  i' ← np_index i (Nx self);
  mret (k', j', i').

(** The loop over [enumerate(river_locations)], from index [river_idx]. *)
Fixpoint river_loop (self : ForcingFileGenerator) (river_locations : list (Z * Z * Z))
    (river_idx : nat) (discharge_list tracer_values : list Q)
    (s : array4 * array4) : exn + (array4 * array4) :=
  match river_locations with
  | [] => mret s
  | site :: rest =>
      discharge ← list_get discharge_list river_idx;
      tracer_val ← list_get tracer_values river_idx;
      s' ← assign_site self site discharge tracer_val s;
      river_loop self rest (S river_idx) discharge_list tracer_values s'
  end.

(** The pair [(flux_data, value_data)] for one tracer. *)
Definition river_arrays (self : ForcingFileGenerator) (river_locations : list (Z * Z * Z))
    (discharge_list tracer_values : list Q) : exn + (array4 * array4) :=
  river_loop self river_locations 0 discharge_list tracer_values
             (full (shape self) 0, full (shape self) (-999.0)).

(** [np.sum(flux_data[0, :, :, :])] needs a first time step. *)
Definition river_stats (flux_data : array4) : exn + unit :=
  match flux_data with
  | [] => inl IndexError
  | _ :: _ => inr ()
  end.

(** The message of the length assertions. *)
Definition mismatch_msg (name : string) : string :=
  "Number of " ++ name ++ " values must match number of rivers".

(** The spec's [MismatchedLengths] error is the failed assertion. *)
Definition MismatchedLengths (name : string) : exn := AssertionError (mismatch_msg name).

(** [[key for key in river_properties.keys() if key != 'discharge']]. *)
Definition river_tracers (river_properties : list (string * list Q)) : list string :=
  List.filter (λ key, negb (String.eqb key "discharge")) (keys river_properties).

(** The body of the loop that builds and writes the arrays of a tracer. *)
Definition river_tracer (self : ForcingFileGenerator)
    (river_locations : list (Z * Z * Z)) (river_properties : list (string * list Q))
    (discharge_list : list Q) (tracer_name : string) : M unit :=
  emit (CreateVariable (tracer_name ++ "_flux") (Some 0.0)) ;;
  emit (CreateVariable tracer_name (Some (-999.0))) ;;
  flux_data ← np_zeros (shape self);
  value_data ← np_full (shape self) (-999.0);
  tracer_values ← lift (dict_get river_properties tracer_name);
  s ← lift (river_loop self river_locations 0 discharge_list tracer_values
                       (flux_data, value_data));
  emit (WriteVariable (tracer_name ++ "_flux") s.1) ;;
  emit (WriteVariable tracer_name s.2) ;;
  lift (river_stats s.1).

Definition create_river_file (self : ForcingFileGenerator) (filepath : string)
    (river_locations : list (Z * Z * Z)) (river_properties : list (string * list Q))
  : M unit :=
  open_dataset self filepath ;;
  let tracers := river_tracers river_properties in
  discharge_list ← lift (dict_get river_properties "discharge");
  let n_rivers := length river_locations in
  assert (length discharge_list =? n_rivers)%nat
         "Number of discharge values must match number of rivers" ;;
  for_each tracers (λ tracer,
    vals ← lift (dict_get river_properties tracer);
    assert (length vals =? n_rivers)%nat
           ("Number of " ++ tracer ++ " values must match number of rivers")) ;;
  for_each tracers (river_tracer self river_locations river_properties discharge_list) ;;
  emit (SetAttr "title") ;;
  emit (SetAttr "created") ;;
  emit (SetAttr "number_of_rivers") ;;
  emit CloseDataset.

(** ** Vocabulary of the statements *)

(** The coordinate of cell [(j, i)] that the loop of edge [e] runs over. *)
Definition sel (e : edge) (j i : Z) : Z :=
  match e with
  | West | East => i
  | South | North => j
  end.

(** Cell [(j, i)] lies in the buffer zone of edge [e]. *)
Definition in_buffer {F} (self : ForcingFileGenerator_of F) (buffer_width : Z)
    (e : edge) (j i : Z) : bool :=
  match e with
  | West => (0 <=? i)%Z && (i <? Z.min buffer_width (Nx self))%Z
  | East => (Z.max 0 (Nx self - buffer_width) <=? i)%Z && (i <? Nx self)%Z
  | South => (0 <=? j)%Z && (j <? Z.min buffer_width (Ny self))%Z
  | North => (Z.max 0 (Ny self - buffer_width) <=? j)%Z && (j <? Ny self)%Z
  end.

(** The edges that are set and whose buffer zone contains cell [(j, i)],
    in processing order. *)
Definition reaching (self : ForcingFileGenerator) (cfg : tracer_config)
    (buffer_width : Z) (j i : Z) : list edge :=
  List.filter (λ e, Qgtb (boundary_value cfg e) (-990) && in_buffer self buffer_width e j i)
              edges.

(** The coordinate of cell [(j, i)] along the axis edge [e] loops over. *)
Definition seln (e : edge) (j i : nat) : nat :=
  match e with
  | West | East => i
  | South | North => j
  end.

(** The composition of the updates [h] of the edges reaching cell [(j, i)]. *)
Definition cell_at (self : ForcingFileGenerator) (cfg : tracer_config)
    (buffer_width : Z) (h : edge → Z → Q → Q) (j i : Z) (x : Q) : Q :=
  foldl (λ x e, h e (sel e j i) x) x (reaching self cfg buffer_width j i).

(** The rate that edge [e] proposes at cell [(j, i)]. *)
Definition edge_rate (self : ForcingFileGenerator) (cfg : tracer_config)
    (buffer_width : Z) (j i : Z) (e : edge) : Q :=
  lambda_val cfg * weight self buffer_width e (sel e j i).

(** Cell [(t, k, j, i)] is a cell of the grid. *)
Definition in_grid {F} (self : ForcingFileGenerator_of F) (t k j i : nat) : Prop :=
  (Z.of_nat t < num_steps self ∧ Z.of_nat k < Nz self ∧
   Z.of_nat j < Ny self ∧ Z.of_nat i < Nx self)%Z.

(** No allocation took place in a log. *)
Definition no_array_built (log : list event) : Prop :=
  ∀ sh v, Allocate sh v ∉ log.

(** The site addresses cell [[:, k, j, i]]. *)
Definition hits (self : ForcingFileGenerator) (k j i : nat) (site : Z * Z * Z) : bool :=
  match site_addr self site with
  | inr a => bool_decide (a = (k, j, i))
  | inl _ => false
  end.

(** All components of a site lie inside the grid. *)
Definition site_in_grid (self : ForcingFileGenerator) (site : Z * Z * Z) : Prop :=
  let '(i, j, k) := site in
  (0 ≤ i < Nx self ∧ 0 ≤ j < Ny self ∧ 0 ≤ k < Nz self)%Z.

(** The site of index [r] is the last one with the coordinates [(i, j, k)]. *)
Definition last_site_at (river_locations : list (Z * Z * Z)) (k j i : nat) (r : nat)
  : Prop :=
  river_locations !! r = Some (Z.of_nat i, Z.of_nat j, Z.of_nat k) ∧
  ∀ r', (r < r')%nat → river_locations !! r' ≠ Some (Z.of_nat i, Z.of_nat j, Z.of_nat k).

(** The placement property of a river build: the arrays are built, and at
    every cell of the grid and every time step, if some site has the
    coordinates of the cell then flux and value are those of the last such
    site, and otherwise they are the defaults. *)
Definition river_placement (self : ForcingFileGenerator)
    (river_locations : list (Z * Z * Z)) (discharge_list tracer_values : list Q) : Prop :=
  ∃ flux value,
    river_arrays self river_locations discharge_list tracer_values = inr (flux, value) ∧
    ∀ t k j i, in_grid self t k j i →
      (∀ r0, river_locations !! r0 = Some (Z.of_nat i, Z.of_nat j, Z.of_nat k) →
         ∃ r dv tv, last_site_at river_locations k j i r ∧
                    discharge_list !! r = Some dv ∧ tracer_values !! r = Some tv ∧
                    cell flux t k j i = Some dv ∧ cell value t k j i = Some tv) ∧
      ((∀ r, river_locations !! r ≠ Some (Z.of_nat i, Z.of_nat j, Z.of_nat k)) →
         cell flux t k j i = Some 0 ∧ cell value t k j i = Some (-999.0)).


(** A component that numpy accepts on an axis of length [extent]. *)
Definition indexable (c extent : Z) : Prop := (- extent ≤ c < extent)%Z.


(** The shape has no negative entry. *)
Definition valid_shape (self : ForcingFileGenerator) : Prop :=
  (0 ≤ num_steps self ∧ 0 ≤ Nz self ∧ 0 ≤ Ny self ∧ 0 ≤ Nx self)%Z.

(** The body of the validation loop over the tracers. *)
Definition offending (river_properties : list (string * list Q)) (n_rivers : nat)
    (tracer : string) : bool :=
  match dict_get river_properties tracer with
  | inr vals => negb (length vals =? n_rivers)%nat
  | inl _ => false
  end.

(** The integer fits numpy's index type. *)
Definition fits_index (c : Z) : Prop := (- 2 ^ 63 ≤ c < 2 ^ 63)%Z.

(** Every component of the site fits numpy's index type. *)
Definition site_fits (site : Z * Z * Z) : Prop :=
  let '(i, j, k) := site in fits_index i ∧ fits_index j ∧ fits_index k.

(** The exceptions of an integer index: out of bounds, or too large for
    the index type. *)
Definition index_error (e : exn) : Prop := e = IndexError ∨ e = OverflowError.


(** ** Example inputs *)

Definition small_grid : ForcingFileGenerator :=
  {| Nx := 3; Ny := 3; Nz := 1; start_date := "2024-01-01";
     time_step_hours := 1; num_steps := 1; times := [0] |}.

Definition cfg_west_south : tracer_config :=
  {| west := Some 10.0; east := None; north := None; south := Some 9.0;
     lambda := None |}.

Definition cfg_negative_lambda : tracer_config :=
  {| west := Some 10.0; east := None; north := None; south := Some 9.0;
     lambda := Some (-1) |}.

(** The boundary spec of the west-only example: [west=10.0, lambda=1e-4]. *)
Definition cfg_west_only : tracer_config :=
  {| west := Some 10.0; east := None; north := None; south := None;
     lambda := Some 1e-4 |}.

(** A generator with [Nx = 20]. *)
Definition grid_nx20 : ForcingFileGenerator :=
  {| Nx := 20; Ny := 2; Nz := 1; start_date := "2024-01-01";
     time_step_hours := 1; num_steps := 1; times := [0] |}.

(** ** Further vocabulary *)

(** The extent of the axis that the loop of edge [e] runs over. *)
Definition axis_extent (self : ForcingFileGenerator) (e : edge) : Z :=
  match e with
  | West | East => Nx self
  | South | North => Ny self
  end.

(** Cell [(j, i)] lies next to the wall of edge [e]. *)
Definition at_wall (self : ForcingFileGenerator) (e : edge) (j i : Z) : Prop :=
  match e with
  | West => i = 0%Z
  | East => i = (Nx self - 1)%Z
  | South => j = 0%Z
  | North => j = (Ny self - 1)%Z
  end.

(** The distance of cell [(j, i)] from the wall of edge [e], in cells. *)
Definition wall_distance (self : ForcingFileGenerator) (e : edge) (j i : Z) : Z :=
  match e with
  | West => i
  | East => (Nx self - 1 - i)%Z
  | South => j
  | North => (Ny self - 1 - j)%Z
  end.

(** Two configurations set the same edges, to the same values, and have
    the same [lambda]; the values of edges that are not set may differ,
    and a key may be present in one and missing in the other. *)
Definition same_forcing (cfg cfg' : tracer_config) : Prop :=
  lambda_val cfg = lambda_val cfg' ∧
  ∀ e, Qgtb (boundary_value cfg e) (-990) = Qgtb (boundary_value cfg' e) (-990) ∧
       (Qgtb (boundary_value cfg e) (-990) = true →
        boundary_value cfg e = boundary_value cfg' e).

(** All extents and the number of time steps are positive. *)
Definition positive_grid (self : ForcingFileGenerator) : Prop :=
  (0 < num_steps self ∧ 0 < Nz self ∧ 0 < Ny self ∧ 0 < Nx self)%Z.

(** A tracer configuration with a positive [lambda] and at least one set
    edge. *)
Definition forced (cfg : tracer_config) : Prop :=
  0 < lambda_val cfg ∧ ∃ e, -990 < boundary_value cfg e.

(** The non-negative index that addresses the same element as [c] on an
    axis of length [extent]. *)
Definition normalise (c extent : Z) : Z :=
  if (- extent <=? c)%Z && (c <? 0)%Z then (c + extent)%Z else c.

Definition normalise_site (self : ForcingFileGenerator) (site : Z * Z * Z) : Z * Z * Z :=
  let '(i, j, k) := site in
  (normalise i (Nx self), normalise j (Ny self), normalise k (Nz self)).

(** Every component of the site is one that numpy accepts. *)
Definition site_indexable (self : ForcingFileGenerator) (site : Z * Z * Z) : Prop :=
  let '(i, j, k) := site in
  indexable i (Nx self) ∧ indexable j (Ny self) ∧ indexable k (Nz self).

(** The events that create, allocate or write the arrays of the tracer
    [name] of a river file. *)
Definition river_tracer_event (name : string) (ev : event) : Prop :=
  (∃ fv, ev = CreateVariable (name ++ "_flux") fv) ∨
  (∃ fv, ev = CreateVariable name fv) ∨
  (∃ sh v, ev = Allocate sh v) ∨
  (∃ a, ev = WriteVariable (name ++ "_flux") a) ∨
  (∃ a, ev = WriteVariable name a).

(** ** The logs of complete runs *)

(** The events of [open_dataset]. *)
Definition open_log (self : ForcingFileGenerator) (filepath : string) : list event :=
  [CreateDataset filepath;
   CreateDimension "Nx" (Some (Nx self));
   CreateDimension "Ny" (Some (Ny self));
   CreateDimension "Nz" (Some (Nz self));
   CreateDimension "time" None;
   CreateVariable "time" None;
   WriteTime (times self)].

(** The events of one pass of the tracer loop of a boundary file that
    reaches the statistics. *)
Definition boundary_tracer_log (self : ForcingFileGenerator) (buffer_width : Z)
    (item : string * tracer_config) : list event :=
  [CreateVariable item.1 (Some (-999.0));
   CreateVariable (item.1 ++ "_lambda") (Some 0.0);
   Allocate (shape self) (-999.0);
   Allocate (shape self) 0;
   WriteVariable item.1 (boundary_arrays self item.2 buffer_width).1;
   WriteVariable (item.1 ++ "_lambda") (boundary_arrays self item.2 buffer_width).2].

(** The events of one pass of the tracer loop of a river file that builds
    the arrays [s]. *)
Definition river_tracer_log (self : ForcingFileGenerator) (tracer_name : string)
    (s : array4 * array4) : list event :=
  [CreateVariable (tracer_name ++ "_flux") (Some 0.0);
   CreateVariable tracer_name (Some (-999.0));
   Allocate (shape self) 0;
   Allocate (shape self) (-999.0);
   WriteVariable (tracer_name ++ "_flux") s.1;
   WriteVariable tracer_name s.2].

(** The attributes and the closing of the two files. *)
Definition boundary_closing_log : list event :=
  [SetAttr "title"; SetAttr "created"; SetAttr "buffer_width"; CloseDataset].

Definition river_closing_log : list event :=
  [SetAttr "title"; SetAttr "created"; SetAttr "number_of_rivers"; CloseDataset].

(** The paths of the datasets created, the names of the variables
    created, and the number of closings, in a log. *)
Definition datasets_created (log : list event) : list string :=
  omap (λ ev, match ev with CreateDataset filepath => Some filepath | _ => None end) log.

Definition variables_created (log : list event) : list string :=
  omap (λ ev, match ev with CreateVariable name _ => Some name | _ => None end) log.

Definition datasets_closed (log : list event) : nat :=
  length (omap (λ ev, match ev with CloseDataset => Some () | _ => None end) log).

(** ** The example callers *)

Definition example_isafjardardjup : M unit :=
  let '(Nx, Ny, Nz) := (304, 320, 30)%Z in
  generator ← lift (__init__ Nx Ny Nz "2024-01-01" 1.0 168);
  let boundary_tracers :=
    [("T", {| west := Some 8.0; east := Some 8.5; north := Some 7.5;
              south := Some 9.0; lambda := Some 1e-4 |});
     ("S", {| west := Some 34.5; east := Some 34.7; north := Some 34.2;
              south := Some 34.8; lambda := Some 1e-4 |})] in
  create_boundary_file generator "Isf_boundary_conditions.nc" boundary_tracers 10 ;;
  let k_surface := (Nz - 1)%Z in
  let river_locations :=
    [(50, 100, k_surface); (75, 150, k_surface); (120, 200, k_surface)]%Z in
  let river_properties :=
    [("discharge", [100.0; 50.0; 30.0]);
     ("T", [5.0; 6.0; 4.5]);
     ("S", [0.1; 0.2; 0.05])] in
  create_river_file generator "Isf_river_forcing.nc" river_locations river_properties.

Definition example_custom_domain : M unit :=
  let '(Nx, Ny, Nz) := (100, 120, 30)%Z in
  generator ← lift (__init__ Nx Ny Nz "2024-01-01 00:00:00" 1.0 24);
  let boundary_tracers :=
    [("T", {| west := Some 10.0; east := Some 11.0; north := Some 10.5;
              south := Some 10.2; lambda := Some 1e-4 |});
     ("S", {| west := Some 35.0; east := Some 35.2; north := Some 34.8;
              south := Some 35.1; lambda := Some 1e-4 |})] in
  create_boundary_file generator "my_boundary_conditions.nc" boundary_tracers 10 ;;
  let k_surface := (Nz - 1)%Z in
  let river_locations := [(30, 60, k_surface); (70, 90, k_surface)]%Z in
  let river_properties :=
    [("discharge", [150.0; 80.0]);
     ("T", [8.0; 7.0]);
     ("S", [0.5; 0.3])] in
  create_river_file generator "my_river_forcing.nc" river_locations river_properties.

(** ** Further example inputs *)

(** Two time steps and two depths. *)
Definition grid_two_steps : ForcingFileGenerator :=
  {| Nx := 3; Ny := 3; Nz := 2; start_date := "2024-01-01";
     time_step_hours := 1; num_steps := 2; times := [0; 3600] |}.

(** [cfg_west_south] with the default [lambda] written out, an east value
    below the threshold and the sentinel given for north. *)
Definition cfg_west_south_explicit : tracer_config :=
  {| west := Some 10.0; east := Some (-995); north := Some (-999.0);
     south := Some 9.0; lambda := Some 1e-4 |}.

(** A configuration that sets no edge. *)
Definition cfg_no_edge : tracer_config :=
  {| west := None; east := Some (-990); north := None; south := None;
     lambda := Some 1e-4 |}.

(** ** The loop nest over arrays of either kind *)

(** The loop nest of [create_boundary_file] restricted to one of its two
    arrays, with the test [isset e] that guards the block of edge [e] and
    the update [h e p] of a slice left open. *)
Definition slice_pass_on {F A} (self : ForcingFileGenerator_of F) (isset : edge → bool)
    (buffer_width : Z) (h : edge → Z → A → A) (t k : Z) (a : array4_of A) (e : edge)
  : array4_of A :=
  if isset e then
    foldl (λ d p, upd_slice e (h e p) (Z.to_nat t) (Z.to_nat k) (Z.to_nat p) d)
          a (buffer_range self buffer_width e)
  else a.

Definition slice_fill_on {F A} (self : ForcingFileGenerator_of F) (isset : edge → bool)
    (buffer_width : Z) (h : edge → Z → A → A) (a : array4_of A) : array4_of A :=
  foldl (λ d t,
      foldl (λ d k, foldl (slice_pass_on self isset buffer_width h t k) d edges)
            d (range (Nz self)))
    a (range (num_steps self)).

(** The edges whose block runs and whose buffer zone contains cell
    [(j, i)], in processing order. *)
Definition reaching_on {F} (self : ForcingFileGenerator_of F) (isset : edge → bool)
    (buffer_width : Z) (j i : Z) : list edge :=
  List.filter (λ e, isset e && in_buffer self buffer_width e j i) edges.

(** The composition of the updates [h] of the edges reaching cell [(j, i)]. *)
Definition cell_at_on {F A} (self : ForcingFileGenerator_of F) (isset : edge → bool)
    (buffer_width : Z) (h : edge → Z → A → A) (j i : Z) (x : A) : A :=
  foldl (λ x e, h e (sel e j i) x) x (reaching_on self isset buffer_width j i).

(** ** The code in binary64 arithmetic *)

(** Python's [float] and numpy's [float64] are IEEE 754 binary64 numbers.
    This module embeds the arithmetic of the source on them: the time
    offsets of [__init__] and the two arrays of [create_boundary_file].
    [float] is Rocq's primitive binary64 type, whose operations round to
    nearest, ties to even, as the hardware and Python do; a decimal
    literal stands for the binary64 number nearest to it, as in Python.
    Numbers that a caller gives as Python [int]s where the code computes
    with floats are taken at their float value. *)
Module Binary64.

Local Open Scope float_scope.

Abbreviation ForcingFileGenerator := (ForcingFileGenerator_of float).

Abbreviation array4 := (array4_of float).

(** *** Python and numpy primitives *)

(** An integer as the unrounded operand of a division. *)
Definition Z2SF (z : Z) : spec_float :=
  match z with
  | Z0 => S754_zero false
  | Zpos p => S754_finite false p 0
  | Zneg p => S754_finite true p 0
  end.

(** [a / b] on Python ints: the exact quotient, rounded once. Python
    raises [ZeroDivisionError] for [b = 0] and [OverflowError] for a
    quotient beyond the largest float; the loops of the source divide
    only with [0 <= a < b] (lemma [buffer_range_distance]). *)
Definition truediv (a b : Z) : float := SF2Prim (SFdiv prec emax (Z2SF a) (Z2SF b)).

(** The binary64 number nearest to an integer (infinite beyond the
    largest float): C's conversion of an index to [double]. *)
Definition Z2float (z : Z) : float := SF2Prim (binary_normalize prec emax z 0 false).

(** The conversion of a Python int that meets a float in an arithmetic
    operation: an [OverflowError] when the int is too large. *)
Definition float_of_int (z : Z) : exn + float :=
  let x := Z2float z in
  if is_infinity x then inl OverflowError else inr x.

(** [np.maximum(x, y)] on one element: numpy computes
    [(x >= y || isnan(x)) ? x : y], which propagates a NaN. *)
Definition maximum (x y : float) : float :=
  if (y <=? x) || is_nan x then x else y.

(** [ceil(x)] as an integer, for a finite [x]. *)
Definition ceil (x : float) : option Z :=
  match Prim2SF x with
  | S754_zero _ => Some 0%Z
  | S754_finite s m e =>
      let z := if s then Zneg m else Zpos m in
      Some (if (0 <=? e)%Z then z * 2 ^ e else - ((- z) / 2 ^ (- e)))%Z
  | _ => None
  end.

(** The number of values of [np.arange]: the ceiling of the binary64
    quotient [(stop - start) / step]. A quotient that underflows to zero
    gives one value, or none when it is a negative zero. A quotient that
    is not a number, or whose ceiling does not fit numpy's index type, is
    a [ValueError]. *)
Definition arange_length (start stop step : float) : exn + Z :=
  let delta := stop - start in
  let val := delta / step in
  if (val =? 0) && negb (delta =? 0) then
    inr (if get_sign val then 0 else 1)%Z
  else
    match ceil val with
    | Some n => if (- 2 ^ 63 <=? n)%Z && (n <? 2 ^ 63)%Z then inr n else inl ValueError
    | None => inl ValueError
    end.

(** The values of an array of [len] elements whose first two are [start]
    and [next]: numpy fills in [start + i * delta] with
    [delta = next - start]. *)
Definition fill (start next : float) (len : nat) : list float :=
  let delta := next - start in
  take len (start :: next ::
            ((λ i, start + Z2float (Z.of_nat i) * delta) <$> seq 2 (len - 2))).

(** [np.arange(start, stop, step)] on Python floats. The division by a
    zero step raises [ZeroDivisionError]: [ZeroStep]. *)
Definition arange (start stop step : float) : exn + list float :=
  if step =? 0 then inl ZeroStep
  else
    len ← arange_length start stop step;
    mret (fill start (start + step) (Z.to_nat len)).

(** *** The grid/time context: [ForcingFileGenerator.__init__] *)

(** [time_step_hours] is a float; [num_steps] is an int, converted when it
    is multiplied by [time_step_hours]. (Given an int number of hours, as
    the default [1], Python multiplies ints and [np.arange] returns the
    same whole numbers as 64-bit ints.) *)
Definition __init__ (nx ny nz : Z) (sd : string) (hours : float) (n : Z)
  : exn + ForcingFileGenerator :=
  steps ← float_of_int n;
  ts ← arange 0 (steps * hours * 3600) (hours * 3600);
  mret {| Nx := nx; Ny := ny; Nz := nz; start_date := sd;
          time_step_hours := hours; num_steps := n; times := ts |}.

(** *** Boundary conditions: [create_boundary_file] *)

Record tracer_config : Type := {
  west : option float;
  east : option float;
  north : option float;
  south : option float;
  lambda : option float
}.

(** [tracer_config.get(key, dflt)]. *)
Definition get (o : option float) (dflt : float) : float := default dflt o.

Definition boundary_value (cfg : tracer_config) (e : edge) : float :=
  match e with
  | West => get (west cfg) (-999.0)
  | East => get (east cfg) (-999.0)
  | North => get (north cfg) (-999.0)
  | South => get (south cfg) (-999.0)
  end.

Definition lambda_val (cfg : tracer_config) : float := get (lambda cfg) 1e-4.

(** The test [val > -990] that guards the block of edge [e]. *)
Definition isset (cfg : tracer_config) (e : edge) : bool := -990 <? boundary_value cfg e.

(** The taper weight at loop index [p]: an int division, then a float
    subtraction. *)
Definition weight (self : ForcingFileGenerator) (buffer_width : Z) (e : edge) (p : Z)
  : float :=
  match e with
  | West => 1.0 - truediv p buffer_width
  | East => 1.0 - truediv (Nx self - 1 - p) buffer_width
  | South => 1.0 - truediv p buffer_width
  | North => 1.0 - truediv (Ny self - 1 - p) buffer_width
  end.

(** One block of the loop body, for the edge [e], at time [t], depth [k]. *)
Definition edge_pass (self : ForcingFileGenerator) (cfg : tracer_config)
    (buffer_width : Z) (t k : Z) (s : array4 * array4) (e : edge)
  : array4 * array4 :=
  let val := boundary_value cfg e in
  if -990 <? val then
    foldl (λ s p,
        let w := weight self buffer_width e p in
        (upd_slice e (λ _, val) (Z.to_nat t) (Z.to_nat k) (Z.to_nat p) s.1,
         upd_slice e (λ x, maximum x (lambda_val cfg * w))
                   (Z.to_nat t) (Z.to_nat k) (Z.to_nat p) s.2))
      s (buffer_range self buffer_width e)
  else s.

(** The loop nest over all time steps and depths. *)
Definition boundary_fill (self : ForcingFileGenerator) (cfg : tracer_config)
    (buffer_width : Z) (s : array4 * array4) : array4 * array4 :=
  foldl (λ s t,
      foldl (λ s k, foldl (edge_pass self cfg buffer_width t k) s edges)
            s (range (Nz self)))
    s (range (num_steps self)).

(** The pair [(data, data_lambda)] for one tracer. *)
Definition boundary_arrays (self : ForcingFileGenerator) (cfg : tracer_config)
    (buffer_width : Z) : array4 * array4 :=
  boundary_fill self cfg buffer_width (full (shape self) (-999.0), full (shape self) 0).

(** *** Vocabulary of the statements *)

(** The update of [data] and of [data_lambda] in the block of edge [e]. *)
Definition value_upd (cfg : tracer_config) : edge → Z → float → float :=
  λ e _ _, boundary_value cfg e.

Definition rate_upd (self : ForcingFileGenerator) (cfg : tracer_config)
    (buffer_width : Z) : edge → Z → float → float :=
  λ e p x, maximum x (lambda_val cfg * weight self buffer_width e p).

(** The edges that are set and whose buffer zone contains cell [(j, i)],
    in processing order. *)
Definition reaching (self : ForcingFileGenerator) (cfg : tracer_config)
    (buffer_width : Z) (j i : Z) : list edge :=
  reaching_on self (isset cfg) buffer_width j i.

(** The rate that edge [e] proposes at cell [(j, i)]. *)
Definition edge_rate (self : ForcingFileGenerator) (cfg : tracer_config)
    (buffer_width : Z) (j i : Z) (e : edge) : float :=
  lambda_val cfg * weight self buffer_width e (sel e j i).

(** The rates that the edges reaching cell [(j, i)] propose there. *)
Definition rates_at (self : ForcingFileGenerator) (cfg : tracer_config)
    (buffer_width : Z) (j i : nat) : list float :=
  List.map (edge_rate self cfg buffer_width (Z.of_nat j) (Z.of_nat i))
           (reaching self cfg buffer_width (Z.of_nat j) (Z.of_nat i)).

(** The binary64 sum and the maximum of a list of rates, taken from left
    to right. *)
Definition sum_list (l : list float) : float :=
  match l with
  | [] => 0
  | x :: l' => foldl add x l'
  end.

Definition max_list (l : list float) : float :=
  match l with
  | [] => 0
  | x :: l' => foldl maximum x l'
  end.

(** The max-merge property at a cell, as the source's floats have it: the
    relaxation rate equals the maximum of the rates of the reaching
    edges, and it does not equal their sum. *)
Definition max_merge (self : ForcingFileGenerator) (cfg : tracer_config)
    (buffer_width : Z) (t k j i : nat) : Prop :=
  let rates := rates_at self cfg buffer_width j i in
  ∃ r, cell (boundary_arrays self cfg buffer_width).2 t k j i = Some r ∧
       (r =? max_list rates) = true ∧ (r =? sum_list rates) = false.

(** *** The order of binary64 numbers *)

(** The place of a number in the order of the binary64 numbers: its sign
    class, then its exponent, then its mantissa, compared in this order.
    A NaN has no place; the two zeros share theirs. *)
Definition SFkey (x : spec_float) : option (Z * Z * Z) :=
  match x with
  | S754_nan => None
  | S754_zero _ => Some (0, 0, 0)%Z
  | S754_infinity false => Some (2, 0, 0)%Z
  | S754_infinity true => Some (-2, 0, 0)%Z
  | S754_finite false m e => Some (1, e, Zpos m)%Z
  | S754_finite true m e => Some (-1, - e, Zneg m)%Z
  end.

Definition key (x : float) : option (Z * Z * Z) := SFkey (Prim2SF x).

Definition lex_compare (a b : Z * Z * Z) : comparison :=
  let '(a1, a2, a3) := a in
  let '(b1, b2, b3) := b in
  match (a1 ?= b1)%Z with
  | Eq => match (a2 ?= b2)%Z with Eq => (a3 ?= b3)%Z | c => c end
  | c => c
  end.

Definition lex_lt (a b : Z * Z * Z) : Prop :=
  let '(a1, a2, a3) := a in
  let '(b1, b2, b3) := b in
  (a1 < b1 ∨ (a1 = b1 ∧ (a2 < b2 ∨ (a2 = b2 ∧ a3 < b3))))%Z.

(** The results of [x < y], [x <= y] and [x == y], read on the places of
    [x] and [y]. *)
Inductive float_order (x y : float) : bool → bool → bool → Prop :=
  | order_nan : key x = None ∨ key y = None → float_order x y false false false
  | order_lt a b : key x = Some a → key y = Some b → lex_lt a b →
      float_order x y true true false
  | order_eq a : key x = Some a → key y = Some a → float_order x y false true true
  | order_gt a b : key x = Some a → key y = Some b → lex_lt b a →
      float_order x y false false false.

(** The time offsets [t * step_seconds] for a whole number of hours per
    step, computed on integers and converted. *)
Definition exact_offsets (hours n : Z) : list float :=
  (λ m, Z2float (m * (hours * 3600))) <$> range n.

(** Two lists hold the same binary64 numbers. *)
Fixpoint list_eqb (l1 l2 : list float) : bool :=
  match l1, l2 with
  | [], [] => true
  | x :: l1', y :: l2' => Leibniz.eqb x y && list_eqb l1' l2'
  | _, _ => false
  end.

(** Construction succeeds and the time offsets are the exact ones. *)
Definition times_exact (hours n : Z) : bool :=
  match __init__ 1 1 1 "" (Z2float hours) n with
  | inr self => list_eqb (times self) (exact_offsets hours n)
  | inl _ => false
  end.

(** *** Example inputs *)

Definition small_grid : ForcingFileGenerator :=
  {| Nx := 3; Ny := 3; Nz := 1; start_date := "2024-01-01";
     time_step_hours := 1; num_steps := 1; times := [0] |}.

(** A generator with [Nx = 20]. *)
Definition grid_nx20 : ForcingFileGenerator :=
  {| Nx := 20; Ny := 2; Nz := 1; start_date := "2024-01-01";
     time_step_hours := 1; num_steps := 1; times := [0] |}.

Definition cfg_west_south : tracer_config :=
  {| west := Some 10.0; east := None; north := None; south := Some 9.0;
     lambda := None |}.

Definition cfg_negative_lambda : tracer_config :=
  {| west := Some 10.0; east := None; north := None; south := Some 9.0;
     lambda := Some (-1) |}.

(** The smallest positive float as [lambda]: [5e-324 * 0.5] underflows. *)
Definition cfg_tiny_lambda : tracer_config :=
  {| west := Some 10.0; east := None; north := None; south := Some 9.0;
     lambda := Some 5e-324 |}.

(** The boundary spec of the west-only example: [west=10.0, lambda=1e-4]. *)
Definition cfg_west_only : tracer_config :=
  {| west := Some 10.0; east := None; north := None; south := None;
     lambda := Some 1e-4 |}.

End Binary64.

(** ** Lemmas on [range] and [arange] *)


Lemma range_lookup n (m : nat) :
  (Z.of_nat m < n)%Z → range n !! m = Some (Z.of_nat m).
Proof.
  intros Hm. unfold range. rewrite lookup_seqZ_lt by lia. by f_equal.
Qed.

Lemma arange_steps (n : Z) (stop step : Q) :
  ¬ step == 0 → stop == inject_Z n * step →
  arange 0 stop step = inr ((λ m, 0 + inject_Z m * step) <$> range n).
Proof.
  intros Hs Hstop. unfold arange.
  destruct (Qeq_bool step 0) eqn:E.
  - by apply Qeq_bool_eq in E.
  - do 3 f_equal.
    assert (Hq : (stop - 0) / step == inject_Z n).
    { rewrite Hstop. by field. }
    rewrite (Qceiling_comp _ _ Hq). apply Qceiling_Z.
Qed.

Lemma init_times nx ny nz sd hours n :
  ¬ hours == 0 →
  __init__ nx ny nz sd hours n
  = inr {| Nx := nx; Ny := ny; Nz := nz; start_date := sd; time_step_hours := hours;
           num_steps := n;
           times := (λ m, 0 + inject_Z m * (hours * 3600)) <$> range n |}.
Proof.
  intros Hh. unfold __init__.
  rewrite (arange_steps n) by (lra || ring). reflexivity.
Qed.

(** ** Reading a cell after a slice update *)

Lemma cell_upd_col {A} (f : A → A) t k i a t' k' j' i' :
  cell (upd_col f t k i a) t' k' j' i'
  = (if decide (t = t' ∧ k = k' ∧ i = i') then f else id) <$> cell a t' k' j' i'.
Proof.
  unfold cell, upd_col. rewrite list_lookup_alter.
  destruct (decide (t = t')) as [->|Ht].
  - destruct (a !! t') as [depths|]; simpl; [|done].
    rewrite list_lookup_alter.
    destruct (decide (k = k')) as [->|Hk].
    + destruct (depths !! k') as [rows|]; simpl; [|done].
      rewrite list_lookup_fmap.
      destruct (rows !! j') as [row|]; simpl; [|done].
      rewrite list_lookup_alter.
      destruct (decide (i = i')) as [->|Hi].
      * by rewrite decide_True.
      * rewrite decide_False by (intros (?&?&?); congruence). by destruct (row !! i').
    + rewrite decide_False by (intros (?&?&?); congruence).
      by destruct (depths !! k') as [rows|]; simpl; [destruct (rows !! j' ≫= _)|].
  - rewrite decide_False by (intros (?&?&?); congruence).
    by destruct (a !! t' ≫= _).
Qed.

Lemma cell_upd_row {A} (f : A → A) t k j a t' k' j' i' :
  cell (upd_row f t k j a) t' k' j' i'
  = (if decide (t = t' ∧ k = k' ∧ j = j') then f else id) <$> cell a t' k' j' i'.
Proof.
  unfold cell, upd_row. rewrite list_lookup_alter.
  destruct (decide (t = t')) as [->|Ht].
  - destruct (a !! t') as [depths|]; simpl; [|done].
    rewrite list_lookup_alter.
    destruct (decide (k = k')) as [->|Hk].
    + destruct (depths !! k') as [rows|]; simpl; [|done].
      rewrite list_lookup_alter.
      destruct (decide (j = j')) as [->|Hj].
      * rewrite decide_True by done.
        destruct (rows !! j') as [row|]; simpl; [|done].
        by rewrite list_lookup_fmap.
      * rewrite decide_False by (intros (?&?&?); congruence).
        by destruct (rows !! j' ≫= _).
    + rewrite decide_False by (intros (?&?&?); congruence).
      by destruct (depths !! k') as [rows|]; simpl; [destruct (rows !! j' ≫= _)|].
  - rewrite decide_False by (intros (?&?&?); congruence).
    by destruct (a !! t' ≫= _).
Qed.

Lemma cell_upd_point {A} (f : A → A) k j i a t' k' j' i' :
  cell (upd_point f k j i a) t' k' j' i'
  = (if decide (k = k' ∧ j = j' ∧ i = i') then f else id) <$> cell a t' k' j' i'.
Proof.
  unfold cell, upd_point. rewrite list_lookup_fmap.
  destruct (a !! t') as [depths|]; simpl; [|done].
  rewrite list_lookup_alter.
  destruct (decide (k = k')) as [->|Hk].
  - destruct (depths !! k') as [rows|]; simpl; [|done].
    rewrite list_lookup_alter.
    destruct (decide (j = j')) as [->|Hj].
    + destruct (rows !! j') as [row|]; simpl; [|done].
      rewrite list_lookup_alter.
      destruct (decide (i = i')) as [->|Hi].
      * by rewrite decide_True.
      * rewrite decide_False by (intros (?&?&?); congruence). by destruct (row !! i').
    + rewrite decide_False by (intros (?&?&?); congruence).
      by destruct (rows !! j' ≫= _).
  - rewrite decide_False by (intros (?&?&?); congruence).
    by destruct (depths !! k') as [rows|]; simpl; [destruct (rows !! j' ≫= _)|].
Qed.

Lemma cell_full {A} nt nz ny nx (v : A) (t k j i : nat) :
  (Z.of_nat t < nt)%Z → (Z.of_nat k < nz)%Z → (Z.of_nat j < ny)%Z → (Z.of_nat i < nx)%Z →
  cell (full (nt, nz, ny, nx) v) t k j i = Some v.
Proof.
  intros Ht Hk Hj Hi. unfold cell, full.
  rewrite lookup_replicate_2 by lia. simpl.
  rewrite lookup_replicate_2 by lia. simpl.
  rewrite lookup_replicate_2 by lia. simpl.
  apply lookup_replicate_2. lia.
Qed.

Lemma cell_upd_slice {A} e (f : A → A) t k p a t' k' j' i' :
  cell (upd_slice e f t k p a) t' k' j' i'
  = (if decide ((t = t' ∧ k = k') ∧ p = seln e j' i') then f else id)
      <$> cell a t' k' j' i'.
Proof.
  destruct e; simpl; rewrite ?cell_upd_col, ?cell_upd_row;
    repeat case_decide; try done; exfalso; tauto.
Qed.

(** ** Folds *)

Lemma foldl_pair_split {A B C} (f : A * B → C → A * B) (f1 : A → C → A)
    (f2 : B → C → B) :
  (∀ s x, f s x = (f1 s.1 x, f2 s.2 x)) →
  ∀ l s, foldl f s l = (foldl f1 s.1 l, foldl f2 s.2 l).
Proof.
  intros Hf l. induction l as [|x l IH]; intros s; simpl.
  - by destruct s.
  - by rewrite Hf, IH.
Qed.

Lemma cell_foldl {A P} (op : array4_of A → P → array4_of A) (φ : P → A → A) t k j i :
  (∀ a p, cell (op a p) t k j i = φ p <$> cell a t k j i) →
  ∀ l a, cell (foldl op a l) t k j i
         = (λ x, foldl (λ x p, φ p x) x l) <$> cell a t k j i.
Proof.
  intros Hop l. induction l as [|p l IH]; intros a; simpl.
  - by destruct (cell a t k j i).
  - rewrite IH, Hop. by destruct (cell a t k j i).
Qed.

Lemma foldl_select {A} (c : Z → Prop) `{∀ p, Decision (c p)}
    (C : Prop) `{Decision C} (h : Z → A → A) (m : nat) (l : list Z) (x : A) :
  (∀ p, c p ↔ C ∧ Z.to_nat p = m) →
  NoDup l → Forall (λ p, 0 ≤ p)%Z l →
  foldl (λ x p, (if decide (c p) then h p else id) x) x l
  = if decide (C ∧ Z.of_nat m ∈ l) then h (Z.of_nat m) x else x.
Proof.
  intros Hc Hnd Hpos. revert x.
  induction l as [|p l IH]; intros x; simpl.
  - rewrite decide_False; [done|]. intros [_ Hin]. by apply elem_of_nil in Hin.
  - apply NoDup_cons in Hnd as [Hp Hnd]. apply Forall_cons in Hpos as [Hp0 Hpos].
    rewrite IH by done. destruct (decide (c p)) as [Hcp|Hcp].
    + apply Hc in Hcp as [HC Hpm].
      assert (p = Z.of_nat m) as -> by lia.
      rewrite decide_False by (intros [_ ?]; done).
      rewrite decide_True; [done|]. split; [done|]. apply elem_of_cons. by left.
    + simpl. destruct (decide (C ∧ Z.of_nat m ∈ l)) as [[HC Hin]|Hn].
      * rewrite decide_True; [done|]. split; [done|]. apply elem_of_cons. by right.
      * rewrite decide_False; [done|]. intros [HC Hin].
        apply elem_of_cons in Hin as [Heq|Hin]; [|by apply Hn].
        apply Hcp, Hc. split; [done|]. lia.
Qed.

Lemma range_NoDup n : NoDup (range n).
Proof. apply NoDup_seqZ. Qed.

Lemma range_nonneg n : Forall (λ p, 0 ≤ p)%Z (range n).
Proof. apply Forall_seqZ. lia. Qed.

Lemma elem_of_range n p : p ∈ range n ↔ (0 ≤ p < n)%Z.
Proof. unfold range. rewrite elem_of_seqZ. lia. Qed.

Lemma elem_of_range2 a b p : p ∈ range2 a b ↔ (a ≤ p < b)%Z.
Proof. unfold range2. rewrite elem_of_seqZ. lia. Qed.

Lemma foldl_last {A B} (v : B → A) (l : list B) (x : A) :
  foldl (λ _ e, v e) x l = from_option v x (last l).
Proof.
  revert x. induction l as [|e l IH]; intros x; [done|]. simpl. rewrite IH.
  destruct l as [|e' l]; [done|].
  change (last (e :: e' :: l)) with (last (e' :: l)).
  destruct (last (e' :: l)) eqn:E; [done|]. by apply last_None in E.
Qed.

Lemma foldl_fixed {A B} (f : A → B → A) (l : list B) (s : A) :
  (∀ s x, f s x = s) → foldl f s l = s.
Proof. intros Hf. induction l as [|x l IH]; simpl; [done|]. by rewrite Hf. Qed.

Lemma existsb_replicate {A} (p : A → bool) (n : nat) (x : A) :
  p x = false → existsb p (replicate n x) = false.
Proof. intros Hp. induction n as [|n IH]; simpl; [done|]. by rewrite Hp. Qed.

(** ** Maxima of rates *)

Lemma frac_bounds (a b : Z) :
  (0 ≤ a < b)%Z → 0 <= inject_Z a / inject_Z b ∧ inject_Z a / inject_Z b < 1.
Proof.
  intros [Ha Hab].
  assert (0 <= inject_Z a) by (change 0 with (inject_Z 0); by rewrite <- Zle_Qle).
  assert (inject_Z a < inject_Z b) by (by rewrite <- Zlt_Qlt).
  split.
  - apply Qle_shift_div_l; lra.
  - apply Qlt_shift_div_r; lra.
Qed.

Lemma foldl_max_ge_init (rs : list Q) (x : Q) : x <= foldl Qmax x rs.
Proof.
  revert x. induction rs as [|r rs IH]; intros x; simpl; [lra|].
  pose proof (IH (Qmax x r)). pose proof (Q.le_max_l x r). lra.
Qed.

Lemma foldl_max_ge_elem (rs : list Q) (x r : Q) : In r rs → r <= foldl Qmax x rs.
Proof.
  revert x. induction rs as [|r' rs IH]; intros x; simpl; [tauto|].
  intros [->|Hin]; [|by apply IH].
  pose proof (foldl_max_ge_init rs (Qmax x r)). pose proof (Q.le_max_r x r). lra.
Qed.

Lemma foldl_max_le (rs : list Q) (x b : Q) :
  x <= b → (∀ r, In r rs → r <= b) → foldl Qmax x rs <= b.
Proof.
  revert x. induction rs as [|r rs IH]; intros x Hx Hrs; simpl; [done|].
  apply IH.
  - apply Q.max_lub; [done|]. apply Hrs. by left.
  - intros r' Hr'. apply Hrs. by right.
Qed.

(** ** The loop nest, cell by cell *)

Lemma seln_sel e (j i : nat) : Z.of_nat (seln e j i) = sel e (Z.of_nat j) (Z.of_nat i).
Proof. by destruct e. Qed.

(** The loop nest over an array of either kind. *)
Section loop_nest.
Context {F A : Type} (self : ForcingFileGenerator_of F) (isset : edge → bool) (bw : Z).

Lemma buffer_range_NoDup e : NoDup (buffer_range self bw e).
Proof. destruct e; apply NoDup_seqZ. Qed.

Lemma buffer_range_nonneg e : Forall (λ p, 0 ≤ p)%Z (buffer_range self bw e).
Proof. destruct e; apply Forall_seqZ; lia. Qed.

Lemma in_buffer_range e j i :
  sel e j i ∈ buffer_range self bw e ↔ in_buffer self bw e j i = true.
Proof.
  destruct e; simpl; rewrite ?elem_of_range, ?elem_of_range2, andb_true_iff;
    rewrite Z.leb_le, Z.ltb_lt; lia.
Qed.

(** The loops divide a distance [0 <= d < buffer_width] by the buffer
    width. *)
Lemma buffer_range_distance e p :
  p ∈ buffer_range self bw e →
  (0 ≤ match e with
       | West | South => p
       | East => Nx self - 1 - p
       | North => Ny self - 1 - p
       end < bw)%Z.
Proof.
  destruct e; simpl; rewrite ?elem_of_range, ?elem_of_range2; lia.
Qed.

Lemma cell_slice_pass_on (h : edge → Z → A → A) t k a e t' k' j' i' :
  cell (slice_pass_on self isset bw h t k a e) t' k' j' i'
  = (λ x, (if decide (Z.to_nat t = t' ∧ Z.to_nat k = k') then
             (if isset e && in_buffer self bw e (Z.of_nat j') (Z.of_nat i')
              then h e (sel e (Z.of_nat j') (Z.of_nat i')) else id)
           else id) x) <$> cell a t' k' j' i'.
Proof.
  unfold slice_pass_on. destruct (isset e) eqn:Hset; simpl.
  - rewrite (cell_foldl _
      (λ p, if decide ((Z.to_nat t = t' ∧ Z.to_nat k = k') ∧ Z.to_nat p = seln e j' i')
            then h e p else id))
      by (intros; apply cell_upd_slice).
    destruct (cell a t' k' j' i') as [x|]; simpl; [|done]. f_equal.
    rewrite (foldl_select _ (Z.to_nat t = t' ∧ Z.to_nat k = k') (h e) (seln e j' i'))
      by (done || apply buffer_range_NoDup || apply buffer_range_nonneg).
    rewrite seln_sel.
    destruct (in_buffer self bw e (Z.of_nat j') (Z.of_nat i')) eqn:Hin.
    + apply in_buffer_range in Hin. repeat case_decide; try done; exfalso; tauto.
    + assert (sel e (Z.of_nat j') (Z.of_nat i') ∉ buffer_range self bw e) as Hn.
      { rewrite in_buffer_range. congruence. }
      repeat case_decide; try done; exfalso; tauto.
  - destruct (cell a t' k' j' i') as [x|]; simpl; [|done]. by case_decide.
Qed.

Lemma cell_at_on_edges (h : edge → Z → A → A) j i x :
  foldl (λ x e, (if isset e && in_buffer self bw e j i
                 then h e (sel e j i) else id) x) x edges
  = cell_at_on self isset bw h j i x.
Proof.
  unfold cell_at_on, reaching_on, edges. simpl.
  repeat match goal with
         | |- context [ if ?b then _ else _ ] => destruct b eqn:?
         end; reflexivity.
Qed.

Lemma cell_plane_on (h : edge → Z → A → A) t k a t' k' j' i' :
  cell (foldl (slice_pass_on self isset bw h t k) a edges) t' k' j' i'
  = (λ x, (if decide (Z.to_nat t = t' ∧ Z.to_nat k = k')
           then cell_at_on self isset bw h (Z.of_nat j') (Z.of_nat i') else id) x)
      <$> cell a t' k' j' i'.
Proof.
  rewrite (cell_foldl _ _ _ _ _ _ (λ a e, cell_slice_pass_on h t k a e t' k' j' i')).
  destruct (cell a t' k' j' i') as [x|]; simpl; [|done]. f_equal.
  case_decide.
  - apply cell_at_on_edges.
  - done.
Qed.

Lemma cell_slice_fill_on (h : edge → Z → A → A) a t k j i :
  cell (slice_fill_on self isset bw h a) t k j i
  = (λ x, if decide (Z.of_nat t < num_steps self ∧ Z.of_nat k < Nz self)%Z
          then cell_at_on self isset bw h (Z.of_nat j) (Z.of_nat i) x else x)
      <$> cell a t k j i.
Proof.
  unfold slice_fill_on.
  rewrite (cell_foldl _
    (λ t0 x, (if decide ((Z.of_nat k < Nz self)%Z ∧ Z.to_nat t0 = t)
              then (λ _, cell_at_on self isset bw h (Z.of_nat j) (Z.of_nat i)) t0
              else id) x)).
  - destruct (cell a t k j i) as [x|]; simpl; [|done]. f_equal.
    rewrite (foldl_select _ (Z.of_nat k < Nz self)%Z _ t)
      by (done || apply range_NoDup || apply range_nonneg).
    repeat case_decide; try done; exfalso; rewrite elem_of_range in *; lia.
  - intros a0 t0.
    rewrite (cell_foldl _ _ _ _ _ _ (λ a k0, cell_plane_on h t0 k0 a t k j i)).
    destruct (cell a0 t k j i) as [x|]; simpl; [|done]. f_equal.
    rewrite (foldl_select _ (Z.to_nat t0 = t)
               (λ _, cell_at_on self isset bw h (Z.of_nat j) (Z.of_nat i)) k)
      by (done || apply range_NoDup || apply range_nonneg).
    repeat case_decide; try done; exfalso; rewrite elem_of_range in *; lia.
Qed.


End loop_nest.

Section boundary_loop.
Context (self : ForcingFileGenerator) (cfg : tracer_config) (bw : Z).

Lemma cell_slice_pass h t k a e t' k' j' i' :
  cell (slice_pass self cfg bw h t k a e) t' k' j' i'
  = (λ x, (if decide (Z.to_nat t = t' ∧ Z.to_nat k = k') then
             (if Qgtb (boundary_value cfg e) (-990)
                 && in_buffer self bw e (Z.of_nat j') (Z.of_nat i')
              then h e (sel e (Z.of_nat j') (Z.of_nat i')) else id)
           else id) x) <$> cell a t' k' j' i'.
Proof.
  unfold slice_pass. destruct (Qgtb (boundary_value cfg e) (-990)) eqn:Hset; simpl.
  - rewrite (cell_foldl _
      (λ p, if decide ((Z.to_nat t = t' ∧ Z.to_nat k = k') ∧ Z.to_nat p = seln e j' i')
            then h e p else id))
      by (intros; apply cell_upd_slice).
    destruct (cell a t' k' j' i') as [x|]; simpl; [|done]. f_equal.
    rewrite (foldl_select _ (Z.to_nat t = t' ∧ Z.to_nat k = k') (h e) (seln e j' i'))
      by (done || apply buffer_range_NoDup || apply buffer_range_nonneg).
    rewrite seln_sel.
    destruct (in_buffer self bw e (Z.of_nat j') (Z.of_nat i')) eqn:Hin.
    + apply in_buffer_range in Hin. repeat case_decide; try done; exfalso; tauto.
    + assert (sel e (Z.of_nat j') (Z.of_nat i') ∉ buffer_range self bw e) as Hn.
      { rewrite in_buffer_range. congruence. }
      repeat case_decide; try done; exfalso; tauto.
  - destruct (cell a t' k' j' i') as [x|]; simpl; [|done]. by case_decide.
Qed.

Lemma cell_at_edges h j i x :
  foldl (λ x e, (if Qgtb (boundary_value cfg e) (-990) && in_buffer self bw e j i
                 then h e (sel e j i) else id) x) x edges
  = cell_at self cfg bw h j i x.
Proof.
  unfold cell_at, reaching, edges. simpl.
  repeat match goal with
         | |- context [ if ?b then _ else _ ] => destruct b eqn:?
         end; reflexivity.
Qed.

Lemma cell_plane h t k a t' k' j' i' :
  cell (foldl (slice_pass self cfg bw h t k) a edges) t' k' j' i'
  = (λ x, (if decide (Z.to_nat t = t' ∧ Z.to_nat k = k')
           then cell_at self cfg bw h (Z.of_nat j') (Z.of_nat i') else id) x)
      <$> cell a t' k' j' i'.
Proof.
  rewrite (cell_foldl _ _ _ _ _ _ (λ a e, cell_slice_pass h t k a e t' k' j' i')).
  destruct (cell a t' k' j' i') as [x|]; simpl; [|done]. f_equal.
  case_decide.
  - apply cell_at_edges.
  - done.
Qed.

Lemma cell_slice_fill h a t k j i :
  cell (slice_fill self cfg bw h a) t k j i
  = (λ x, if decide (Z.of_nat t < num_steps self ∧ Z.of_nat k < Nz self)%Z
          then cell_at self cfg bw h (Z.of_nat j) (Z.of_nat i) x else x)
      <$> cell a t k j i.
Proof.
  unfold slice_fill.
  rewrite (cell_foldl _
    (λ t0 x, (if decide ((Z.of_nat k < Nz self)%Z ∧ Z.to_nat t0 = t)
              then (λ _, cell_at self cfg bw h (Z.of_nat j) (Z.of_nat i)) t0 else id) x)).
  - destruct (cell a t k j i) as [x|]; simpl; [|done]. f_equal.
    rewrite (foldl_select _ (Z.of_nat k < Nz self)%Z _ t)
      by (done || apply range_NoDup || apply range_nonneg).
    repeat case_decide; try done; exfalso; rewrite elem_of_range in *; lia.
  - intros a0 t0.
    rewrite (cell_foldl _ _ _ _ _ _ (λ a k0, cell_plane h t0 k0 a t k j i)).
    destruct (cell a0 t k j i) as [x|]; simpl; [|done]. f_equal.
    rewrite (foldl_select _ (Z.to_nat t0 = t)
               (λ _, cell_at self cfg bw h (Z.of_nat j) (Z.of_nat i)) k)
      by (done || apply range_NoDup || apply range_nonneg).
    repeat case_decide; try done; exfalso; rewrite elem_of_range in *; lia.
Qed.

Lemma boundary_fill_split s :
  boundary_fill self cfg bw s
  = (slice_fill self cfg bw (value_upd cfg) s.1,
     slice_fill self cfg bw (rate_upd self cfg bw) s.2).
Proof.
  unfold boundary_fill, slice_fill.
  apply foldl_pair_split. intros s1 t.
  apply foldl_pair_split. intros s2 k.
  apply foldl_pair_split. intros s3 e.
  unfold edge_pass, slice_pass.
  destruct (Qgtb (boundary_value cfg e) (-990)); [|by destruct s3].
  by apply foldl_pair_split.
Qed.

Lemma boundary_value_cell t k j i :
  in_grid self t k j i →
  cell (boundary_arrays self cfg bw).1 t k j i
  = Some (cell_at self cfg bw (value_upd cfg) (Z.of_nat j) (Z.of_nat i) (-999.0)).
Proof.
  intros (Ht & Hk & Hj & Hi). unfold boundary_arrays.
  rewrite boundary_fill_split. cbn [fst snd].
  rewrite cell_slice_fill. unfold shape. rewrite cell_full by done.
  cbn [fmap option_fmap option_map]. by rewrite decide_True.
Qed.

Lemma boundary_rate_cell t k j i :
  in_grid self t k j i →
  cell (boundary_arrays self cfg bw).2 t k j i
  = Some (cell_at self cfg bw (rate_upd self cfg bw) (Z.of_nat j) (Z.of_nat i) 0).
Proof.
  intros (Ht & Hk & Hj & Hi). unfold boundary_arrays.
  rewrite boundary_fill_split. cbn [fst snd].
  rewrite cell_slice_fill. unfold shape. rewrite cell_full by done.
  cbn [fmap option_fmap option_map]. by rewrite decide_True.
Qed.

(** ** Values: the last reaching edge wins *)

Lemma value_at_last j i x :
  cell_at self cfg bw (value_upd cfg) j i x
  = from_option (boundary_value cfg) x (last (reaching self cfg bw j i)).
Proof. unfold cell_at, value_upd. apply foldl_last. Qed.

Lemma reaching_spec j i e :
  In e (reaching self cfg bw j i)
  ↔ -990 < boundary_value cfg e ∧ in_buffer self bw e j i = true.
Proof.
  unfold reaching. rewrite filter_In, andb_true_iff. unfold Qgtb.
  rewrite negb_true_iff, <- not_true_iff_false, Qle_bool_iff.
  split.
  - intros (_ & Hv & Hb). split; [lra|done].
  - intros (Hv & Hb). split; [destruct e; simpl; tauto|]. split; [lra|done].
Qed.

(** ** Rates: arithmetic of the taper *)

Lemma weight_bounds e j i :
  in_buffer self bw e j i = true →
  0 < weight self bw e (sel e j i) ∧ weight self bw e (sel e j i) <= 1.
Proof.
  intros Hin. apply in_buffer_range in Hin.
  destruct e; simpl in *;
    rewrite ?elem_of_range, ?elem_of_range2 in Hin;
    match goal with
    | |- context [ inject_Z ?a / inject_Z ?b ] =>
        destruct (frac_bounds a b) as [? ?]; [lia|]
    end; split; lra.
Qed.

Lemma rate_at_foldl j i x :
  cell_at self cfg bw (rate_upd self cfg bw) j i x
  = foldl Qmax x (List.map (edge_rate self cfg bw j i) (reaching self cfg bw j i)).
Proof.
  unfold cell_at, rate_upd, edge_rate.
  generalize (reaching self cfg bw j i). intros l. revert x.
  induction l as [|e l IH]; intros x; simpl; [done|]. apply IH.
Qed.

Lemma reaching_cell_values t k j i :
  in_grid self t k j i →
  ∃ es, es = reaching self cfg bw (Z.of_nat j) (Z.of_nat i) ∧
    cell (boundary_arrays self cfg bw).1 t k j i
    = Some (from_option (boundary_value cfg) (-999.0) (last es)) ∧
    cell (boundary_arrays self cfg bw).2 t k j i
    = Some (foldl Qmax 0 (List.map (edge_rate self cfg bw (Z.of_nat j) (Z.of_nat i)) es)).
Proof.
  intros Hg. eexists. split; [reflexivity|]. split.
  - by rewrite boundary_value_cell, value_at_last.
  - by rewrite boundary_rate_cell, rate_at_foldl.
Qed.

End boundary_loop.

(** ** The order of binary64 numbers *)

Lemma SFcompare_key x y :
  SFcompare x y
  = match Binary64.SFkey x, Binary64.SFkey y with
    | Some a, Some b => Some (Binary64.lex_compare a b)
    | _, _ => None
    end.
Proof.
  destruct x as [sx|sx| |sx mx ex], y as [sy|sy| |sy my ey];
    try destruct sx; try destruct sy; try reflexivity.
  simpl. rewrite Z.compare_opp, (Z.compare_antisym ex ey).
  by destruct (ex ?= ey)%Z.
Qed.

Lemma lex_compare_spec a b :
  match Binary64.lex_compare a b with
  | Lt => Binary64.lex_lt a b
  | Eq => a = b
  | Gt => Binary64.lex_lt b a
  end.
Proof.
  destruct a as [[a1 a2] a3], b as [[b1 b2] b3].
  unfold Binary64.lex_compare, Binary64.lex_lt.
  destruct (Z.compare_spec a1 b1); [|lia|lia].
  destruct (Z.compare_spec a2 b2); [|lia|lia].
  destruct (Z.compare_spec a3 b3); [congruence|lia|lia].
Qed.

Lemma float_order_spec x y :
  Binary64.float_order x y (PrimFloat.ltb x y) (PrimFloat.leb x y) (PrimFloat.eqb x y).
Proof.
  rewrite FloatAxioms.ltb_spec, FloatAxioms.leb_spec, FloatAxioms.eqb_spec.
  unfold SFltb, SFleb, SFeqb.
  rewrite SFcompare_key. fold (Binary64.key x) (Binary64.key y).
  destruct (Binary64.key x) as [a|] eqn:Hx; [|apply Binary64.order_nan; by left].
  destruct (Binary64.key y) as [b|] eqn:Hy; [|apply Binary64.order_nan; by right].
  pose proof (lex_compare_spec a b) as H.
  destruct (Binary64.lex_compare a b).
  - subst b. by eapply Binary64.order_eq.
  - by eapply Binary64.order_lt.
  - by eapply Binary64.order_gt.
Qed.

(** Compare [x] and [y], then decide the goal on their places. *)
Ltac float_compare x y :=
  let H := fresh "Hord" in
  pose proof (float_order_spec x y) as H; inversion H; clear H.

Ltac float_solve :=
  simplify_eq;
  repeat match goal with
         | H : _ ∨ _ |- _ => destruct H
         end;
  simplify_eq;
  repeat match goal with
         | a : (Z * Z * Z)%type |- _ => destruct a as [[? ?] ?]
         end;
  unfold Binary64.lex_lt in *; simplify_eq; try congruence; try lia.

Lemma is_nan_key x : is_nan x = true ↔ Binary64.key x = None.
Proof.
  unfold is_nan. float_compare x x; split; intros Hx; float_solve.
Qed.

Lemma is_nan_false_key x : is_nan x = false ↔ ∃ a, Binary64.key x = Some a.
Proof.
  rewrite <- not_true_iff_false, is_nan_key.
  destruct (Binary64.key x); split; try done; eauto. by intros [? ?].
Qed.

Lemma leb_refl x : is_nan x = false → PrimFloat.leb x x = true.
Proof.
  intros [a Ha]%is_nan_false_key. float_compare x x; float_solve.
Qed.

Lemma leb_trans x y z :
  PrimFloat.leb x y = true → PrimFloat.leb y z = true → PrimFloat.leb x z = true.
Proof.
  intros Hxy Hyz. float_compare x y; float_compare y z; float_compare x z; float_solve.
Qed.


Lemma leb_total x y :
  is_nan x = false → is_nan y = false →
  PrimFloat.leb y x = true ∨ PrimFloat.ltb x y = true.
Proof.
  intros [a Ha]%is_nan_false_key [b Hb]%is_nan_false_key.
  float_compare x y; float_compare y x; float_solve; tauto.
Qed.

Lemma leb_not_nan x y : PrimFloat.leb x y = true → is_nan x = false ∧ is_nan y = false.
Proof.
  intros Hxy. rewrite !is_nan_false_key. float_compare x y; float_solve; eauto.
Qed.


Lemma ltb_leb x y : PrimFloat.ltb x y = true → PrimFloat.leb x y = true.
Proof. intros Hxy. float_compare x y; float_solve. Qed.

Lemma ltb_not_eqb x y : PrimFloat.ltb x y = true → PrimFloat.eqb x y = false.
Proof. intros Hxy. float_compare x y; float_solve. Qed.

Lemma leb_antisym x y :
  PrimFloat.leb x y = true → PrimFloat.leb y x = true → PrimFloat.eqb x y = true.
Proof. intros Hxy Hyx. float_compare x y; float_compare y x; float_solve. Qed.

Lemma eqb_ltb_trans x y z :
  PrimFloat.eqb x y = true → PrimFloat.ltb y z = true → PrimFloat.ltb x z = true.
Proof.
  intros Hxy Hyz. float_compare x y; float_compare y z; float_compare x z; float_solve.
Qed.

Lemma eqb_refl x : is_nan x = false → PrimFloat.eqb x x = true.
Proof. intros [a Ha]%is_nan_false_key. float_compare x x; float_solve. Qed.


(** ** [np.maximum] *)

Lemma maximum_nan_l x y : is_nan x = true → Binary64.maximum x y = x.
Proof. intros Hx. unfold Binary64.maximum. by rewrite Hx, orb_true_r. Qed.


Lemma maximum_num x y :
  is_nan x = false → is_nan y = false →
  (Binary64.maximum x y = x ∧ PrimFloat.leb y x = true) ∨
  (Binary64.maximum x y = y ∧ PrimFloat.ltb x y = true).
Proof.
  intros Hx Hy. unfold Binary64.maximum. rewrite Hx, orb_false_r.
  destruct (PrimFloat.leb y x) eqn:Hyx; [by left|]. right. split; [done|].
  destruct (leb_total x y Hx Hy); congruence.
Qed.

Lemma foldl_maximum_nan_init x ps :
  is_nan x = true → foldl Binary64.maximum x ps = x.
Proof.
  intros Hx. induction ps as [|p ps IH]; simpl; [done|].
  by rewrite maximum_nan_l.
Qed.


Lemma foldl_maximum_num x ps :
  is_nan x = false → (∀ p, In p ps → is_nan p = false) →
  is_nan (foldl Binary64.maximum x ps) = false ∧
  PrimFloat.leb x (foldl Binary64.maximum x ps) = true ∧
  (∀ p, In p ps → PrimFloat.leb p (foldl Binary64.maximum x ps) = true) ∧
  (foldl Binary64.maximum x ps = x ∨ In (foldl Binary64.maximum x ps) ps).
Proof.
  revert x. induction ps as [|p ps IH]; intros x Hx Hps; simpl.
  - split; [done|]. split; [by apply leb_refl|]. split; [tauto|]. by left.
  - assert (is_nan p = false) as Hp by (apply Hps; by left).
    assert (∀ q, In q ps → is_nan q = false) as Hps' by (intros q Hq; apply Hps; by right).
    destruct (maximum_num x p Hx Hp) as [[-> Hle]|[-> Hlt]].
    + destruct (IH x Hx Hps') as (Hn & Hx' & Hall & Hin).
      split; [done|]. split; [done|]. split.
      * intros q [<-|Hq]; [by eapply leb_trans|by apply Hall].
      * destruct Hin; [by left|right; by right].
    + destruct (IH p Hp Hps') as (Hn & Hp' & Hall & Hin).
      split; [done|]. split; [eapply leb_trans; [by apply ltb_leb|done]|]. split.
      * intros q [<-|Hq]; [done|by apply Hall].
      * right. destruct Hin as [->|Hin]; [by left|by right].
Qed.


(** With non-negative rates, the merged rate is their maximum. *)
Lemma foldl_maximum_is_max ps :
  ps ≠ [] → (∀ p, In p ps → PrimFloat.leb 0 p = true) →
  (∃ p, In p ps ∧ PrimFloat.eqb (foldl Binary64.maximum 0%float ps) p = true) ∧
  (∀ p, In p ps → PrimFloat.leb p (foldl Binary64.maximum 0%float ps) = true).
Proof.
  intros Hne Hpos.
  assert (∀ p, In p ps → is_nan p = false) as Hps.
  { intros p Hp. by destruct (leb_not_nan _ _ (Hpos p Hp)). }
  destruct (foldl_maximum_num 0%float ps eq_refl Hps) as (Hn & _ & Hall & Hin).
  split; [|done].
  destruct Hin as [Heq|Hin].
  - destruct ps as [|p ps]; [done|]. exists p. split; [by left|].
    rewrite Heq. apply leb_antisym.
    + apply Hpos. by left.
    + rewrite <- Heq. apply Hall. by left.
  - eexists. split; [done|]. by apply eqb_refl.
Qed.

Lemma eqb_leb_ltb_false r p s :
  PrimFloat.eqb r p = true → PrimFloat.ltb p s = true → PrimFloat.eqb r s = false.
Proof.
  intros Hrp Hps. apply ltb_not_eqb. by eapply eqb_ltb_trans.
Qed.

Lemma maximum_init_zero a b :
  PrimFloat.leb 0 a = true → PrimFloat.leb 0 b = true →
  PrimFloat.eqb (Binary64.maximum (Binary64.maximum 0 a) b) (Binary64.maximum a b) = true.
Proof.
  intros Ha Hb.
  destruct (leb_not_nan _ _ Ha) as [_ Hna]. destruct (leb_not_nan _ _ Hb) as [_ Hnb].
  destruct (maximum_num 0%float a eq_refl Hna) as [[-> Hle]|[-> Hlt]].
  - destruct (maximum_num 0%float b eq_refl Hnb) as [[-> Hle']|[-> Hlt']];
      destruct (maximum_num a b Hna Hnb) as [[-> H1]|[-> H2]].
    + by apply leb_antisym.
    + by apply leb_antisym.
    + apply leb_antisym; [done|]. eapply leb_trans; [done|]. by apply ltb_leb.
    + by apply eqb_refl.
  - apply eqb_refl.
    destruct (maximum_num a b Hna Hnb) as [[-> _]|[-> _]]; done.
Qed.

(** ** The boundary arrays in binary64, cell by cell *)

Section binary64_loop.
Context (self : Binary64.ForcingFileGenerator) (cfg : Binary64.tracer_config) (bw : Z).

Lemma binary64_fill_split s :
  Binary64.boundary_fill self cfg bw s
  = (slice_fill_on self (Binary64.isset cfg) bw (Binary64.value_upd cfg) s.1,
     slice_fill_on self (Binary64.isset cfg) bw (Binary64.rate_upd self cfg bw) s.2).
Proof.
  unfold Binary64.boundary_fill, slice_fill_on.
  apply foldl_pair_split. intros s1 t.
  apply foldl_pair_split. intros s2 k.
  apply foldl_pair_split. intros s3 e.
  unfold Binary64.edge_pass, slice_pass_on, Binary64.isset.
  destruct (PrimFloat.ltb _ _); [|by destruct s3].
  by apply foldl_pair_split.
Qed.

Lemma binary64_rate_at_foldl j i x :
  cell_at_on self (Binary64.isset cfg) bw (Binary64.rate_upd self cfg bw) j i x
  = foldl Binary64.maximum x
      (List.map (Binary64.edge_rate self cfg bw j i) (Binary64.reaching self cfg bw j i)).
Proof.
  unfold cell_at_on, Binary64.rate_upd, Binary64.edge_rate, Binary64.reaching.
  generalize (reaching_on self (Binary64.isset cfg) bw j i). intros l. revert x.
  induction l as [|e l IH]; intros x; simpl; [done|]. apply IH.
Qed.

Lemma binary64_cell_values t k j i :
  in_grid self t k j i →
  cell (Binary64.boundary_arrays self cfg bw).1 t k j i
  = Some (from_option (Binary64.boundary_value cfg) (-999.0)%float
            (last (Binary64.reaching self cfg bw (Z.of_nat j) (Z.of_nat i)))) ∧
  cell (Binary64.boundary_arrays self cfg bw).2 t k j i
  = Some (foldl Binary64.maximum 0%float (Binary64.rates_at self cfg bw j i)).
Proof.
  intros (Ht & Hk & Hj & Hi). unfold Binary64.boundary_arrays.
  rewrite binary64_fill_split. cbn [fst snd].
  rewrite !cell_slice_fill_on. unfold shape. rewrite !cell_full by done.
  cbn [fmap option_fmap option_map]. rewrite !decide_True by done.
  split; f_equal.
  - unfold cell_at_on, Binary64.value_upd. apply foldl_last.
  - apply binary64_rate_at_foldl.
Qed.


End binary64_loop.

(** ** Properties of the boundary arrays *)




(** C3. At a cell of the grid lying in the buffer zones of two or more set
    edges, the value is the boundary value of the last of those edges in
    the processing order west, east, south, north. *)
Theorem value_last_edge_wins self cfg bw t k j i e :
  in_grid self t k j i →
  (2 ≤ length (reaching self cfg bw (Z.of_nat j) (Z.of_nat i)))%nat →
  last (reaching self cfg bw (Z.of_nat j) (Z.of_nat i)) = Some e →
  cell (boundary_arrays self cfg bw).1 t k j i = Some (boundary_value cfg e).
Proof.
  intros Hg _ Hlast.
  destruct (reaching_cell_values self cfg bw t k j i Hg) as (es & -> & Hv & _).
  by rewrite Hv, Hlast.
Qed.

(** At the corner reached by west and south, south is processed last. *)
Lemma value_last_edge_wins_witness :
  cell (boundary_arrays small_grid cfg_west_south 2).1 0 0 0 0
  = Some (boundary_value cfg_west_south South).
Proof.
  apply (value_last_edge_wins small_grid cfg_west_south 2 0 0 0 0 South).
  - unfold in_grid. simpl. lia.
  - vm_compute. lia.
  - reflexivity.
Defined.

(** With [lambda = -1] the corner reached by west and south keeps the rate
    [0.0], while both edge rates are [-1.0]; and with [lambda = 5e-324]
    the cell [j = 1], [i = 1] reached by west and south has the rate
    [0.0], which is the sum [0.0 + 0.0] of the two rates. *)
Lemma max_merge_fails_for_negative_or_tiny_lambda :
  (in_grid Binary64.small_grid 0 0 0 0 ∧
   (2 ≤ length (Binary64.reaching Binary64.small_grid Binary64.cfg_negative_lambda 2 0 0))%nat ∧
   ¬ Binary64.max_merge Binary64.small_grid Binary64.cfg_negative_lambda 2 0 0 0 0) ∧
  (PrimFloat.ltb 0 (Binary64.lambda_val Binary64.cfg_tiny_lambda) = true ∧
   in_grid Binary64.small_grid 0 0 1 1 ∧
   (2 ≤ length (Binary64.reaching Binary64.small_grid Binary64.cfg_tiny_lambda 2 1 1))%nat ∧
   ¬ Binary64.max_merge Binary64.small_grid Binary64.cfg_tiny_lambda 2 0 0 1 1).
Proof.
  split.
  - split; [unfold in_grid; simpl; lia|]. split; [vm_compute; lia|].
    intros (r & Hr & Hmax & _).
    vm_compute in Hr. injection Hr as <-.
    vm_compute in Hmax. discriminate.
  - split; [reflexivity|]. split; [unfold in_grid; simpl; lia|]. split; [vm_compute; lia|].
    intros (r & Hr & _ & Hsum).
    vm_compute in Hr. injection Hr as <-.
    vm_compute in Hsum. discriminate.
Qed.

(** C2 (amended). In binary64, at a cell of the grid reached by the buffer
    zones of two or more set edges whose rates [lambda_scale * weight]
    are all non-negative numbers, the relaxation rate is the maximum of
    those rates: it equals one of them and none of them exceeds it. It
    differs from their sum wherever the sum exceeds each of them. Where
    exactly west and south reach, as at the corner [j = 0], [i = 0], it is
    the maximum of the west and the south rate. *)
Theorem relax_rate_is_max_of_rates
    (self : Binary64.ForcingFileGenerator) cfg bw t k j i :
  in_grid self t k j i →
  (2 ≤ length (Binary64.reaching self cfg bw (Z.of_nat j) (Z.of_nat i)))%nat →
  (∀ p, In p (Binary64.rates_at self cfg bw j i) → PrimFloat.leb 0 p = true) →
  ∃ r, cell (Binary64.boundary_arrays self cfg bw).2 t k j i = Some r ∧
    (∃ p, In p (Binary64.rates_at self cfg bw j i) ∧ PrimFloat.eqb r p = true) ∧
    (∀ p, In p (Binary64.rates_at self cfg bw j i) → PrimFloat.leb p r = true) ∧
    ((∀ p, In p (Binary64.rates_at self cfg bw j i) →
           PrimFloat.ltb p (Binary64.sum_list (Binary64.rates_at self cfg bw j i)) = true) →
     PrimFloat.eqb r (Binary64.sum_list (Binary64.rates_at self cfg bw j i)) = false) ∧
    (Binary64.reaching self cfg bw (Z.of_nat j) (Z.of_nat i) = [West; South] →
     PrimFloat.eqb r
       (Binary64.maximum
          (Binary64.edge_rate self cfg bw (Z.of_nat j) (Z.of_nat i) West)
          (Binary64.edge_rate self cfg bw (Z.of_nat j) (Z.of_nat i) South)) = true).
Proof.
  intros Hg Hlen Hpos.
  destruct (binary64_cell_values self cfg bw t k j i Hg) as [_ Hr].
  eexists. split; [exact Hr|].
  assert (Binary64.rates_at self cfg bw j i ≠ []) as Hne.
  { unfold Binary64.rates_at.
    destruct (Binary64.reaching _ _ _ _ _); [simpl in Hlen; lia|done]. }
  destruct (foldl_maximum_is_max _ Hne Hpos) as [(p & Hp & Heq) Hall].
  split; [eauto|]. split; [done|]. split.
  - intros Hsum. eapply eqb_leb_ltb_false; [done|]. by apply Hsum.
  - intros Hes. revert Hpos. unfold Binary64.rates_at. rewrite Hes. simpl.
    intros Hpos. apply maximum_init_zero; apply Hpos; tauto.
Qed.

(** The corner of the 3 x 3 grid with the default [lambda = 1e-4]. *)
Lemma relax_rate_is_max_of_rates_witness :
  ∃ r, cell (Binary64.boundary_arrays Binary64.small_grid Binary64.cfg_west_south 2).2 0 0 0 0
       = Some r ∧
    (∃ p, In p (Binary64.rates_at Binary64.small_grid Binary64.cfg_west_south 2 0 0) ∧
          PrimFloat.eqb r p = true) ∧
    (∀ p, In p (Binary64.rates_at Binary64.small_grid Binary64.cfg_west_south 2 0 0) →
          PrimFloat.leb p r = true) ∧
    ((∀ p, In p (Binary64.rates_at Binary64.small_grid Binary64.cfg_west_south 2 0 0) →
           PrimFloat.ltb p
             (Binary64.sum_list
                (Binary64.rates_at Binary64.small_grid Binary64.cfg_west_south 2 0 0)) = true) →
     PrimFloat.eqb r
       (Binary64.sum_list
          (Binary64.rates_at Binary64.small_grid Binary64.cfg_west_south 2 0 0)) = false) ∧
    (Binary64.reaching Binary64.small_grid Binary64.cfg_west_south 2 0 0 = [West; South] →
     PrimFloat.eqb r
       (Binary64.maximum
          (Binary64.edge_rate Binary64.small_grid Binary64.cfg_west_south 2 0 0 West)
          (Binary64.edge_rate Binary64.small_grid Binary64.cfg_west_south 2 0 0 South))
     = true).
Proof.
  apply (relax_rate_is_max_of_rates Binary64.small_grid Binary64.cfg_west_south 2 0 0 0 0).
  - unfold in_grid. simpl. lia.
  - vm_compute. lia.
  - intros p Hp. vm_compute in Hp. destruct Hp as [<-|[<-|[]]]; reflexivity.
Defined.

(** On the claim's own input the rate in column 4 is not [2e-5]. *)
Lemma west_only_rate_is_not_2e_5 :
  in_grid Binary64.grid_nx20 0 0 0 4 ∧
  ∃ r4, cell (Binary64.boundary_arrays Binary64.grid_nx20 Binary64.cfg_west_only 5).2 0 0 0 4
        = Some r4 ∧ PrimFloat.eqb r4 2e-5 = false.
Proof.
  split; [unfold in_grid; simpl; lia|].
  exists 1.9999999999999995e-05%float. split; vm_compute; reflexivity.
Qed.

(** C4 (amended). With only west set ([west=10.0], [lambda=1e-4]),
    [buffer_width=5] and [nx=20], at every time step, depth and row the
    relaxation rate is [1e-4] in column 0 and [0] in column 10; in column
    4 it is [1e-4 * (1.0 - 4/5)] as binary64 evaluates it, which is
    [1.9999999999999995e-05] and differs from [2e-5]. *)
Theorem west_only_rates_binary64 (self : Binary64.ForcingFileGenerator) (t k j : nat) :
  Nx self = 20%Z →
  (Z.of_nat t < num_steps self)%Z → (Z.of_nat k < Nz self)%Z →
  (Z.of_nat j < Ny self)%Z →
  cell (Binary64.boundary_arrays self Binary64.cfg_west_only 5).2 t k j 0
  = Some 1e-4%float ∧
  (∃ r4, cell (Binary64.boundary_arrays self Binary64.cfg_west_only 5).2 t k j 4 = Some r4 ∧
         r4 = (1e-4 * (1.0 - Binary64.truediv 4 5))%float ∧
         r4 = 1.9999999999999995e-05%float ∧
         PrimFloat.eqb r4 2e-5 = false) ∧
  cell (Binary64.boundary_arrays self Binary64.cfg_west_only 5).2 t k j 10 = Some 0%float.
Proof.
  intros Hnx Ht Hk Hj.
  assert (∀ i, (i < 20)%nat → in_grid self t k j i) as Hg.
  { intros i Hi. unfold in_grid. lia. }
  assert (∀ i, (i < 20)%nat →
    cell (Binary64.boundary_arrays self Binary64.cfg_west_only 5).2 t k j i
    = Some (foldl Binary64.maximum 0%float
              (Binary64.rates_at self Binary64.cfg_west_only 5 j i))) as Hc.
  { intros i Hi.
    by destruct (binary64_cell_values self Binary64.cfg_west_only 5 t k j i (Hg i Hi)). }
  rewrite !Hc by lia.
  unfold Binary64.rates_at, Binary64.reaching, reaching_on, edges, in_buffer. rewrite Hnx.
  split; [|split].
  - vm_compute. reflexivity.
  - eexists. split; [reflexivity|]. repeat split; vm_compute; reflexivity.
  - vm_compute. reflexivity.
Qed.

(** A 20 x 2 x 1 grid with one time step. *)
Lemma west_only_rates_binary64_witness :
  cell (Binary64.boundary_arrays Binary64.grid_nx20 Binary64.cfg_west_only 5).2 0 0 1 0
  = Some 1e-4%float ∧
  (∃ r4, cell (Binary64.boundary_arrays Binary64.grid_nx20 Binary64.cfg_west_only 5).2 0 0 1 4
         = Some r4 ∧
         r4 = (1e-4 * (1.0 - Binary64.truediv 4 5))%float ∧
         r4 = 1.9999999999999995e-05%float ∧
         PrimFloat.eqb r4 2e-5 = false) ∧
  cell (Binary64.boundary_arrays Binary64.grid_nx20 Binary64.cfg_west_only 5).2 0 0 1 10
  = Some 0%float.
Proof.
  apply (west_only_rates_binary64 Binary64.grid_nx20 0 0 1).
  - reflexivity.
  - simpl. lia.
  - simpl. lia.
  - simpl. lia.
Defined.

(** ** Properties of the grid/time context *)

(** C9. With [time_step_hours = 0.1] and [num_steps = 3] the stop value
    [3 * 0.1 * 3600] is [1080.0000000000002] in binary64, its quotient by
    the step [360.0] exceeds 3, and [np.arange] returns four time offsets
    for three time steps. *)
Theorem time_offsets_one_more_than_num_steps :
  (Binary64.Z2float 3 * 0.1 * 3600)%float = 1080.0000000000002%float ∧
  (0.1 * 3600)%float = 360%float ∧
  Binary64.arange_length 0 1080.0000000000002 360 = inr 4%Z ∧
  Binary64.__init__ 3 3 1 "2024-01-01" 0.1 3
  = inr {| Nx := 3; Ny := 3; Nz := 1; start_date := "2024-01-01";
           time_step_hours := 0.1%float; num_steps := 3;
           times := [0; 360; 720; 1080]%float |}.
Proof. repeat split; vm_compute; reflexivity. Qed.







(** ** Indexing *)

Lemma np_index_in_range c extent :
  (0 ≤ c < extent)%Z → np_index c extent = inr (Z.to_nat c).
Proof.
  intros Hc. unfold np_index.
  destruct (Z.leb_spec 0 c), (Z.ltb_spec c extent); (done || lia).
Qed.

Lemma np_index_wrap c extent :
  (- extent ≤ c < 0)%Z → np_index c extent = inr (Z.to_nat (c + extent)).
Proof.
  intros Hc. unfold np_index.
  destruct (Z.leb_spec 0 c); [lia|]. simpl.
  destruct (Z.leb_spec (- extent) c), (Z.ltb_spec c 0); (done || lia).
Qed.


Lemma np_index_error c extent e :
  np_index c extent = inl e →
  index_error e ∧ (fits_index c → e = IndexError) ∧ (e = OverflowError → ¬ fits_index c).
Proof.
  unfold np_index, index_error, fits_index.
  destruct ((0 <=? c)%Z && (c <? extent)%Z); [done|].
  destruct ((- extent <=? c)%Z && (c <? 0)%Z); [done|].
  destruct (Z.leb_spec (- 2 ^ 63) c), (Z.ltb_spec c (2 ^ 63)); simpl;
    intros [= <-]; (split; [tauto|]); split; (done || lia).
Qed.

Lemma last_index_exists {A} `{EqDecision A} (l : list A) (c : A) (r0 : nat) :
  l !! r0 = Some c →
  ∃ r, l !! r = Some c ∧ ∀ r', (r < r')%nat → l !! r' ≠ Some c.
Proof.
  revert r0. induction l as [|x l IH]; intros r0 Hr0; [by rewrite lookup_nil in Hr0|].
  destruct (decide (c ∈ l)) as [Hin|Hnotin].
  - apply list_elem_of_lookup in Hin as [r1 Hr1].
    destruct (IH r1 Hr1) as (r & Hr & Hlater).
    exists (S r). split; [done|].
    intros [|r'] Hlt; [lia|]. simpl. apply Hlater. lia.
  - destruct r0 as [|r0]; simpl in Hr0.
    + injection Hr0 as ->. exists 0%nat. split; [done|].
      intros [|r'] Hlt; [lia|]. simpl. intros Hr'.
      apply Hnotin, list_elem_of_lookup. by exists r'.
    + exfalso. apply Hnotin, list_elem_of_lookup. by exists r0.
Qed.

(** ** The river loop, cell by cell *)

Section river_loop.
Context (self : ForcingFileGenerator).

Lemma assign_site_ok site dv tv s k' j' i' :
  site_addr self site = inr (k', j', i') →
  assign_site self site dv tv s
  = inr (upd_point (λ _, dv) k' j' i' s.1, upd_point (λ _, tv) k' j' i' s.2).
Proof.
  destruct site as [[i j] k]. unfold site_addr, assign_site.
  destruct (np_index k (Nz self)) as [|k0]; simpl; [done|].
  destruct (np_index j (Ny self)) as [|j0]; simpl; [done|].
  destruct (np_index i (Nx self)) as [|i0]; simpl; [done|].
  unfold mret, result_ret. by intros [= -> -> ->].
Qed.

Lemma assign_site_error site dv tv s e :
  site_addr self site = inl e → assign_site self site dv tv s = inl e.
Proof.
  destruct site as [[i j] k]. unfold site_addr, assign_site.
  destruct (np_index k (Nz self)) as [|k0]; simpl; [by intros [= ->]|].
  destruct (np_index j (Ny self)) as [|j0]; simpl; [by intros [= ->]|].
  destruct (np_index i (Nx self)) as [|i0]; simpl; [by intros [= ->]|done].
Qed.

Lemma cell_assign_site site dv tv s s' t k j i :
  assign_site self site dv tv s = inr s' →
  cell s'.1 t k j i = (if hits self k j i site then λ _, dv else id) <$> cell s.1 t k j i ∧
  cell s'.2 t k j i = (if hits self k j i site then λ _, tv else id) <$> cell s.2 t k j i.
Proof.
  intros Hs. unfold hits.
  destruct (site_addr self site) as [e|[[k' j'] i']] eqn:Ha.
  - by rewrite (assign_site_error _ _ _ _ _ Ha) in Hs.
  - rewrite (assign_site_ok _ _ _ _ _ _ _ Ha) in Hs. injection Hs as <-. simpl.
    rewrite !cell_upd_point.
    destruct (decide (k' = k ∧ j' = j ∧ i' = i)) as [(-> & -> & ->)|Hn].
    + by rewrite bool_decide_eq_true_2.
    + rewrite bool_decide_eq_false_2; [done|]. intros [= -> -> ->]. by apply Hn.
Qed.

Lemma river_loop_cells d vals locs :
  ∀ idx s,
    Forall (λ site, ∃ a, site_addr self site = inr a) locs →
    (idx + length locs ≤ length d)%nat → (idx + length locs ≤ length vals)%nat →
    ∃ s', river_loop self locs idx d vals s = inr s' ∧
      ∀ t k j i,
        (∀ r site, locs !! r = Some site → hits self k j i site = true →
           (∀ r' site', (r < r')%nat → locs !! r' = Some site' →
                        hits self k j i site' = false) →
           ∃ dv tv, d !! (idx + r)%nat = Some dv ∧ vals !! (idx + r)%nat = Some tv ∧
                    cell s'.1 t k j i = (λ _, dv) <$> cell s.1 t k j i ∧
                    cell s'.2 t k j i = (λ _, tv) <$> cell s.2 t k j i) ∧
        ((∀ r site, locs !! r = Some site → hits self k j i site = false) →
           cell s'.1 t k j i = cell s.1 t k j i ∧ cell s'.2 t k j i = cell s.2 t k j i).
Proof.
  induction locs as [|site0 rest IH]; intros idx s Hvalid Hd Hv.
  - exists s. split; [done|]. intros t k j i. split; [|done].
    intros r site Hr. by rewrite lookup_nil in Hr.
  - apply Forall_cons in Hvalid as [[a Ha] Hvalid]. simpl in Hd, Hv.
    destruct (lookup_lt_is_Some_2 d idx) as [dv0 Hdv0]; [lia|].
    destruct (lookup_lt_is_Some_2 vals idx) as [tv0 Htv0]; [lia|].
    destruct a as [[k0 j0] i0].
    pose proof (assign_site_ok site0 dv0 tv0 s _ _ _ Ha) as Hs1.
    set (s1 := (upd_point (λ _, dv0) k0 j0 i0 s.1, upd_point (λ _, tv0) k0 j0 i0 s.2))
      in Hs1.
    destruct (IH (S idx) s1 Hvalid) as (s' & Hloop & Hcells); [lia|lia|].
    exists s'. split.
    { simpl. unfold list_get. rewrite Hdv0, Htv0. simpl. rewrite Hs1. simpl. exact Hloop. }
    intros t k j i. destruct (Hcells t k j i) as [Hlast Hnone].
    destruct (cell_assign_site site0 dv0 tv0 s s1 t k j i Hs1) as [Hc1 Hc2].
    split.
    + intros [|r] site Hr Hhit Hlater.
      * simpl in Hr. injection Hr as <-.
        destruct Hnone as [Hn1 Hn2].
        { intros r' site' Hr'. apply (Hlater (S r') site'); [lia|done]. }
        exists dv0, tv0. rewrite Nat.add_0_r.
        split; [done|]. split; [done|].
        by rewrite Hn1, Hn2, Hc1, Hc2, Hhit.
      * simpl in Hr.
        destruct (Hlast r site Hr Hhit) as (dv & tv & Hdv & Htv & Hl1 & Hl2).
        { intros r' site' Hlt Hr'. apply (Hlater (S r') site'); [lia|done]. }
        exists dv, tv. replace (idx + S r)%nat with (S idx + r)%nat by lia.
        split; [done|]. split; [done|].
        rewrite Hl1, Hl2, Hc1, Hc2.
        by destruct (cell s.1 t k j i), (cell s.2 t k j i).
    + intros Hno.
      destruct Hnone as [Hn1 Hn2].
      { intros r site Hr. by apply (Hno (S r) site). }
      rewrite Hn1, Hn2, Hc1, Hc2, (Hno 0%nat site0 eq_refl).
      by destruct (cell s.1 t k j i), (cell s.2 t k j i).
Qed.

Lemma site_addr_in_grid site :
  site_in_grid self site →
  site_addr self site
  = inr (Z.to_nat site.2, Z.to_nat site.1.2, Z.to_nat site.1.1).
Proof.
  destruct site as [[i j] k]. intros (Hi & Hj & Hk). unfold site_addr.
  by rewrite !np_index_in_range.
Qed.

Lemma hits_in_grid site (k j i : nat) :
  site_in_grid self site →
  hits self k j i site = true ↔ site = (Z.of_nat i, Z.of_nat j, Z.of_nat k).
Proof.
  intros Hs. unfold hits. rewrite (site_addr_in_grid _ Hs).
  rewrite bool_decide_eq_true.
  destruct site as [[i0 j0] k0]. destruct Hs as (Hi & Hj & Hk). simpl. split.
  - intros [= <- <- <-]. f_equal; [f_equal|]; lia.
  - intros [= -> -> ->]. by rewrite !Nat2Z.id.
Qed.

Lemma site_addr_error site e :
  site_addr self site = inl e →
  index_error e ∧ (site_fits site → e = IndexError) ∧
  (e = OverflowError → ¬ site_fits site).
Proof.
  destruct site as [[i j] k]. unfold site_addr, site_fits.
  destruct (np_index k (Nz self)) as [e1|k0] eqn:Hk; simpl.
  { intros [= <-]. destruct (np_index_error _ _ _ Hk) as (? & ? & ?).
    split; [done|]. split; tauto. }
  destruct (np_index j (Ny self)) as [e2|j0] eqn:Hj; simpl.
  { intros [= <-]. destruct (np_index_error _ _ _ Hj) as (? & ? & ?).
    split; [done|]. split; tauto. }
  destruct (np_index i (Nx self)) as [e3|i0] eqn:Hi; simpl; [|done].
  intros [= <-]. destruct (np_index_error _ _ _ Hi) as (? & ? & ?).
  split; [done|]. split; tauto.
Qed.


(** The loop over the sites fails only on an index: with [IndexError]
    when every component of every site fits the index type, and with
    [OverflowError] only if some component does not. *)
Lemma river_loop_error d vals locs :
  ∀ idx s e, river_loop self locs idx d vals s = inl e →
    index_error e ∧ (Forall site_fits locs → e = IndexError) ∧
    (e = OverflowError → ¬ Forall site_fits locs).
Proof.
  induction locs as [|site rest IH]; intros idx s e He; [done|].
  simpl in He. unfold list_get in He.
  assert (index_error IndexError) as Hidx by (by left).
  destruct (d !! idx) as [dv|]; [|by injection He as <-]. simpl in He.
  destruct (vals !! idx) as [tv|]; [|by injection He as <-]. simpl in He.
  destruct (site_addr self site) as [e0|[[k0 j0] i0]] eqn:Ha.
  - rewrite (assign_site_error _ _ _ _ _ Ha) in He. injection He as <-.
    destruct (site_addr_error _ _ Ha) as (H1 & H2 & H3).
    split; [done|]. split.
    + intros Hall. apply Forall_cons in Hall as [Hs _]. by apply H2.
    + intros Heq Hall. apply Forall_cons in Hall as [Hs _]. by apply H3.
  - rewrite (assign_site_ok _ _ _ _ _ _ _ Ha) in He.
    destruct (IH _ _ _ He) as (H1 & H2 & H3).
    split; [done|]. split.
    + intros Hall. apply Forall_cons in Hall as [_ Hall]. by apply H2.
    + intros Heq Hall. apply Forall_cons in Hall as [_ Hall]. by apply H3.
Qed.


End river_loop.

(** ** Properties of the river arrays *)

(** A site [(-1, 0, 0)] on a grid with [Nx = 3] writes cell [i = 2], which
    is the coordinate of no site. *)
Lemma river_placement_fails_for_negative_index :
  length [5] = length [(-1, 0, 0)%Z] ∧ length [7] = length [(-1, 0, 0)%Z] ∧
  ¬ river_placement small_grid [(-1, 0, 0)%Z] [5] [7].
Proof.
  split; [done|]. split; [done|].
  intros (flux & value & Harr & Hcells).
  vm_compute in Harr. injection Harr as <- <-.
  destruct (Hcells 0%nat 0%nat 0%nat 2%nat) as [_ Hnone].
  { unfold in_grid. simpl. lia. }
  destruct Hnone as [Hflux _].
  - intros [|r]; simpl; [discriminate|]. by rewrite lookup_nil.
  - vm_compute in Hflux. discriminate.
Qed.

(** C5 (amended). For a river build with matching input lengths whose
    sites all lie inside the grid, the arrays are built, and at every cell
    of the grid and every time step: if some site has the coordinates of
    the cell, flux and value are the discharge and the tracer value of the
    last-indexed such site; otherwise flux is [0.0] and value is
    [-999.0]. *)
Theorem river_placement_in_grid self locs d vals :
  length d = length locs → length vals = length locs →
  Forall (site_in_grid self) locs →
  river_placement self locs d vals.
Proof.
  intros Hd Hv Hin. unfold river_placement, river_arrays.
  destruct (river_loop_cells self d vals locs 0
              (full (shape self) 0, full (shape self) (-999.0)))
    as (s' & Hloop & Hcells); [|lia|lia|].
  { eapply Forall_impl; [exact Hin|]. intros site Hs.
    eexists. by apply site_addr_in_grid. }
  exists s'.1, s'.2. split; [by destruct s'|].
  intros t k j i (Ht & Hk & Hj & Hi).
  destruct (Hcells t k j i) as [Hlast Hnone]. cbn [fst snd] in Hlast, Hnone.
  unfold shape in Hlast, Hnone. rewrite !cell_full in Hlast, Hnone by done.
  assert (∀ r site, locs !! r = Some site → site_in_grid self site) as Hgrid.
  { intros r site Hr. eapply Forall_lookup_1; done. }
  split.
  - intros r0 Hr0.
    destruct (last_index_exists locs _ r0 Hr0) as (r & Hr & Hlater).
    destruct (Hlast r _ Hr) as (dv & tv & Hdv & Htv & Hf & Hval).
    + apply hits_in_grid; [by eapply Hgrid|done].
    + intros r' site' Hlt Hr'. apply not_true_is_false. intros Hhit.
      apply hits_in_grid in Hhit; [|by eapply Hgrid]. subst site'.
      by apply (Hlater r').
    + by exists r, dv, tv.
  - intros Hno. apply Hnone. intros r site Hr.
    apply not_true_is_false. intros Hhit.
    apply hits_in_grid in Hhit; [|by eapply Hgrid]. subst site.
    by apply (Hno r).
Qed.

(** Two sites sharing the coordinates [(1, 1, 0)]. *)
Lemma river_placement_in_grid_witness :
  river_placement small_grid [(1, 1, 0)%Z; (1, 1, 0)%Z] [5; 6] [7; 8].
Proof.
  apply (river_placement_in_grid small_grid [(1, 1, 0)%Z; (1, 1, 0)%Z] [5; 6] [7; 8]).
  - reflexivity.
  - reflexivity.
  - repeat constructor; simpl; lia.
Defined.

(** ** Running the effectful code *)

Lemma run_bind {A B} (m : M A) (f : A → M B) log :
  (m ≫= f) log
  = match m log with
    | (log', inl e) => (log', inl e)
    | (log', inr a) => f a log'
    end.
Proof. reflexivity. Qed.

(** One step of a run: unfold a bind and the primitive under it. *)
Ltac run_step := rewrite run_bind; cbn [emit app mret M_ret lift raise assert].

Lemma run_open_dataset self filepath :
  open_dataset self filepath []
  = ([CreateDataset filepath;
      CreateDimension "Nx" (Some (Nx self));
      CreateDimension "Ny" (Some (Ny self));
      CreateDimension "Nz" (Some (Nz self));
      CreateDimension "time" None;
      CreateVariable "time" None;
      WriteTime (times self)], inr ()).
Proof. reflexivity. Qed.

Lemma dict_get_keys {A} (d : list (string * A)) key :
  In key (keys d) → ∃ v, dict_get d key = inr v.
Proof.
  induction d as [|[k v] d IH]; simpl; [tauto|].
  intros [->|Hin].
  - rewrite String.eqb_refl. by exists v.
  - destruct (String.eqb k key); [by exists v|by apply IH].
Qed.

Lemma river_tracers_keys props tracer :
  In tracer (river_tracers props) → In tracer (keys props).
Proof. unfold river_tracers. rewrite filter_In. tauto. Qed.

Lemma validation_loop props n l log :
  (∀ tracer, In tracer l → In tracer (keys props)) →
  for_each l (λ tracer,
    vals ← lift (dict_get props tracer);
    assert (length vals =? n)%nat
           ("Number of " ++ tracer ++ " values must match number of rivers")) log
  = (log, match find (offending props n) l with
          | Some tracer => inl (MismatchedLengths tracer)
          | None => inr ()
          end).
Proof.
  induction l as [|tracer l IH]; intros Hkeys; [done|].
  destruct (dict_get_keys props tracer) as [vals Hvals]; [apply Hkeys; by left|].
  cbn [for_each find]. unfold offending at 1. rewrite Hvals.
  rewrite run_bind. rewrite run_bind. cbn [lift mret M_ret].
  destruct (length vals =? n)%nat; simpl.
  - apply IH. intros t Ht. apply Hkeys. by right.
  - reflexivity.
Qed.

Lemma open_log_no_array self filepath :
  no_array_built [CreateDataset filepath;
      CreateDimension "Nx" (Some (Nx self));
      CreateDimension "Ny" (Some (Ny self));
      CreateDimension "Nz" (Some (Nz self));
      CreateDimension "time" None;
      CreateVariable "time" None;
      WriteTime (times self)].
Proof.
  intros sh v Hin.
  repeat (apply elem_of_cons in Hin as [Hin|Hin]; [discriminate|]).
  by apply elem_of_nil in Hin.
Qed.

(** ** Properties of the river file *)

(** C6. When the number of discharge values, or the number of values of
    some tracer, differs from the number of sites, the river build fails
    with [MismatchedLengths], the assertion whose message names the
    offending entry, and no array has been allocated. *)
Theorem mismatched_lengths_rejected self filepath locs props d :
  dict_get props "discharge" = inr d →
  (length d ≠ length locs ∨
   ∃ tracer vals, In tracer (river_tracers props) ∧
                  dict_get props tracer = inr vals ∧ length vals ≠ length locs) →
  ∃ log name,
    create_river_file self filepath locs props [] = (log, inl (MismatchedLengths name)) ∧
    ((name = "discharge" ∧ length d ≠ length locs) ∨
     (In name (river_tracers props) ∧
      ∃ vals, dict_get props name = inr vals ∧ length vals ≠ length locs)) ∧
    no_array_built log.
Proof.
  intros Hd Hbad. unfold create_river_file.
  rewrite run_bind, run_open_dataset. rewrite run_bind, Hd. cbn [lift mret M_ret].
  rewrite run_bind.
  destruct (length d =? length locs)%nat eqn:Hlen.
  - apply Nat.eqb_eq in Hlen. destruct Hbad as [Hbad|(tracer & vals & Hin & Hvals & Hne)];
      [done|].
    cbn [assert mret M_ret]. rewrite run_bind, validation_loop
      by apply river_tracers_keys.
    destruct (find (offending props (length locs)) (river_tracers props))
      as [name|] eqn:Hfind.
    + apply find_some in Hfind as [Hname Hoff]. unfold offending in Hoff.
      destruct (dict_get props name) as [|vals'] eqn:Hvals'; [done|].
      apply negb_true_iff, Nat.eqb_neq in Hoff.
      eexists _, name. split; [reflexivity|]. split; [|apply open_log_no_array].
      right. split; [done|]. by exists vals'.
    + exfalso. apply (find_none _ _ Hfind) in Hin. unfold offending in Hin.
      rewrite Hvals in Hin. apply negb_false_iff, Nat.eqb_eq in Hin. done.
  - apply Nat.eqb_neq in Hlen. cbn [assert raise].
    eexists _, "discharge". split; [reflexivity|]. split; [|apply open_log_no_array].
    left. done.
Qed.

(** One site, one discharge, two temperatures. *)
Lemma mismatched_lengths_rejected_witness :
  ∃ log name,
    create_river_file small_grid "rivers.nc" [(1, 1, 0)%Z]
      [("discharge", [100.0]); ("T", [8.0; 7.5]); ("S", [])] []
    = (log, inl (MismatchedLengths name)) ∧
    ((name = "discharge" ∧ length [100.0] ≠ length [(1, 1, 0)%Z]) ∨
     (In name (river_tracers [("discharge", [100.0]); ("T", [8.0; 7.5]); ("S", [])]) ∧
      ∃ vals, dict_get [("discharge", [100.0]); ("T", [8.0; 7.5]); ("S", [])] name
              = inr vals ∧ length vals ≠ length [(1, 1, 0)%Z])) ∧
    no_array_built log.
Proof.
  apply (mismatched_lengths_rejected small_grid "rivers.nc" [(1, 1, 0)%Z]
           [("discharge", [100.0]); ("T", [8.0; 7.5]); ("S", [])] [100.0]).
  - reflexivity.
  - right. exists "T", [8.0; 7.5]. split; [simpl; tauto|]. split; [reflexivity|].
    simpl. lia.
Defined.

(** ** Properties of the boundary file *)

Lemma buffer_range_nonpos {F} (self : ForcingFileGenerator_of F) bw e :
  (bw ≤ 0)%Z → buffer_range self bw e = [].
Proof. intros Hbw. destruct e; apply seqZ_nil; lia. Qed.

Lemma boundary_fill_nonpos self cfg bw s : (bw ≤ 0)%Z → boundary_fill self cfg bw s = s.
Proof.
  intros Hbw. unfold boundary_fill.
  apply foldl_fixed. intros s1 t. apply foldl_fixed. intros s2 k.
  apply foldl_fixed. intros s3 e. unfold edge_pass.
  rewrite buffer_range_nonpos by done. by destruct (Qgtb _ _).
Qed.

Lemma any4_full {A} (p : A → bool) sh v : p v = false → any4 p (full sh v) = false.
Proof.
  intros Hp. destruct sh as [[[nt nz] ny] nx]. unfold any4, full.
  by do 4 apply existsb_replicate.
Qed.

Lemma run_np_full self v log :
  valid_shape self →
  np_full (shape self) v log = (log ++ [Allocate (shape self) v], inr (full (shape self) v)).
Proof.
  intros (Ht & Hz & Hy & Hx). unfold np_full, shape.
  destruct (Z.leb_spec 0 (num_steps self)); [|lia].
  destruct (Z.leb_spec 0 (Nz self)); [|lia].
  destruct (Z.leb_spec 0 (Ny self)); [|lia].
  destruct (Z.leb_spec 0 (Nx self)); [|lia].
  reflexivity.
Qed.

Lemma stats_of_fill_values sh :
  ∃ e, boundary_stats (full sh (-999.0)) (full sh 0) = inl e.
Proof.
  unfold boundary_stats. destruct (full sh 0); [by eexists|].
  rewrite any4_full by reflexivity. by eexists.
Qed.

(** The arrays that the body of the tracer loop writes are
    [boundary_arrays]. *)
Lemma run_boundary_tracer self cfg bw tracer_name log :
  valid_shape self →
  boundary_tracer self bw (tracer_name, cfg) log
  = (log ++ [CreateVariable tracer_name (Some (-999.0));
             CreateVariable (tracer_name ++ "_lambda") (Some 0.0);
             Allocate (shape self) (-999.0);
             Allocate (shape self) 0;
             WriteVariable tracer_name (boundary_arrays self cfg bw).1;
             WriteVariable (tracer_name ++ "_lambda") (boundary_arrays self cfg bw).2],
     boundary_stats (boundary_arrays self cfg bw).1 (boundary_arrays self cfg bw).2).
Proof.
  intros Hshape. unfold boundary_tracer. do 3 run_step.
  unfold np_zeros. rewrite !run_np_full by done.
  run_step. rewrite !run_np_full by done. cbn [app].
  fold (boundary_arrays self cfg bw). do 2 run_step.
  rewrite <- !app_assoc. cbn [app].
  by destruct (boundary_stats _ _) as [e|[]].
Qed.

Lemma run_boundary_tracer_nonpos self cfg bw tracer_name log :
  (bw ≤ 0)%Z → valid_shape self →
  ∃ e, boundary_tracer self bw (tracer_name, cfg) log
       = (log ++ [CreateVariable tracer_name (Some (-999.0));
                  CreateVariable (tracer_name ++ "_lambda") (Some 0.0);
                  Allocate (shape self) (-999.0);
                  Allocate (shape self) 0;
                  WriteVariable tracer_name (full (shape self) (-999.0));
                  WriteVariable (tracer_name ++ "_lambda") (full (shape self) 0)],
          inl e).
Proof.
  intros Hbw Hshape.
  destruct (stats_of_fill_values (shape self)) as [e He]. exists e.
  rewrite run_boundary_tracer by done.
  unfold boundary_arrays. rewrite boundary_fill_nonpos by done. cbn [fst snd].
  by rewrite He.
Qed.

(** With [buffer_width = 0] the arrays of the tracer are allocated and
    written; the only error is the [ValueError] of the statistics, raised
    afterwards, and a call without tracers returns normally. *)
Lemma nonpositive_buffer_width_not_rejected :
  (0 ≤ 0)%Z ∧
  (∃ log, create_boundary_file small_grid "bc.nc" [("T", cfg_west_south)] 0 []
          = (log, inl ValueError) ∧
          Allocate (shape small_grid) (-999.0) ∈ log ∧
          WriteVariable "T" (full (shape small_grid) (-999.0)) ∈ log) ∧
  (∃ log, create_boundary_file small_grid "bc.nc" [] 0 [] = (log, inr ())).
Proof.
  split; [lia|]. split.
  - eexists. split; [vm_compute; reflexivity|].
    split; apply list_elem_of_In; vm_compute; tauto.
  - eexists. vm_compute. reflexivity.
Qed.

(** C7 (amended). A boundary build with [buffer_width <= 0] raises no
    configuration error: no buffer zone contains a cell, so both arrays
    keep their fill values ([-999.0] and [0.0]) in every cell, and for the
    first tracer of the call they are allocated and written as such. *)
Theorem nonpositive_buffer_width_keeps_fill_values self cfg bw :
  (bw ≤ 0)%Z →
  boundary_arrays self cfg bw = (full (shape self) (-999.0), full (shape self) 0) ∧
  (∀ filepath tracer_name rest, valid_shape self →
     ∃ log r,
       create_boundary_file self filepath ((tracer_name, cfg) :: rest) bw [] = (log, r) ∧
       Allocate (shape self) (-999.0) ∈ log ∧
       WriteVariable tracer_name (full (shape self) (-999.0)) ∈ log ∧
       WriteVariable (tracer_name ++ "_lambda") (full (shape self) 0) ∈ log).
Proof.
  intros Hbw. split; [by apply boundary_fill_nonpos|].
  intros filepath tracer_name rest Hshape.
  unfold create_boundary_file. rewrite run_bind, run_open_dataset.
  cbn [for_each]. rewrite !run_bind.
  edestruct (run_boundary_tracer_nonpos self cfg bw tracer_name) as [e ->]; [done..|].
  eexists _, _. split; [reflexivity|].
  repeat split; apply list_elem_of_In; simpl; tauto.
Qed.

(** A negative buffer width on the 3 x 3 grid. *)
Lemma nonpositive_buffer_width_keeps_fill_values_witness :
  boundary_arrays small_grid cfg_west_south (-3)
  = (full (shape small_grid) (-999.0), full (shape small_grid) 0) ∧
  ∃ log r,
    create_boundary_file small_grid "bc.nc" [("T", cfg_west_south)] (-3) [] = (log, r) ∧
    Allocate (shape small_grid) (-999.0) ∈ log ∧
    WriteVariable "T" (full (shape small_grid) (-999.0)) ∈ log ∧
    WriteVariable ("T" ++ "_lambda") (full (shape small_grid) 0) ∈ log.
Proof.
  destruct (nonpositive_buffer_width_keeps_fill_values small_grid cfg_west_south (-3))
    as [Harrays Hfile].
  - lia.
  - split; [exact Harrays|]. apply (Hfile "bc.nc" "T" []).
    unfold valid_shape. simpl. lia.
Defined.

(** ** Sites outside the grid *)

Lemma validation_passes props n l :
  (∀ tracer vals, In tracer l → dict_get props tracer = inr vals → length vals = n) →
  find (offending props n) l = None.
Proof.
  intros Hok. destruct (find (offending props n) l) as [tracer|] eqn:Hfind; [|done].
  apply find_some in Hfind as [Hin Hoff]. unfold offending in Hoff.
  destruct (dict_get props tracer) as [|vals] eqn:Hvals; [done|].
  apply negb_true_iff, Nat.eqb_neq in Hoff. by rewrite (Hok _ _ Hin Hvals) in Hoff.
Qed.

(** The arrays that the body of the tracer loop builds are
    [river_arrays]; they are written when the loop over the sites
    returns. *)
Lemma run_river_tracer self locs props d tracer_name vals log :
  valid_shape self → dict_get props tracer_name = inr vals →
  river_tracer self locs props d tracer_name log
  = match river_arrays self locs d vals with
    | inl e =>
        (log ++ [CreateVariable (tracer_name ++ "_flux") (Some 0.0);
                 CreateVariable tracer_name (Some (-999.0));
                 Allocate (shape self) 0;
                 Allocate (shape self) (-999.0)], inl e)
    | inr s =>
        (log ++ [CreateVariable (tracer_name ++ "_flux") (Some 0.0);
                 CreateVariable tracer_name (Some (-999.0));
                 Allocate (shape self) 0;
                 Allocate (shape self) (-999.0);
                 WriteVariable (tracer_name ++ "_flux") s.1;
                 WriteVariable tracer_name s.2], river_stats s.1)
    end.
Proof.
  intros Hshape Hvals. unfold river_tracer. do 3 run_step.
  unfold np_zeros. rewrite !run_np_full by done.
  run_step. rewrite !run_np_full by done. cbn [app].
  run_step. rewrite Hvals. cbn [lift mret M_ret].
  run_step. fold (river_arrays self locs d vals).
  destruct (river_arrays self locs d vals) as [e|s]; cbn [lift raise mret M_ret].
  - by rewrite <- !app_assoc.
  - do 2 run_step. rewrite <- !app_assoc. cbn [app].
    by destruct (river_stats _) as [e|[]].
Qed.





(** ** The shape of the boundary arrays *)

Lemma cell_full_is_Some {A} sh (v : A) (t k j i : nat) :
  is_Some (cell (full sh v) t k j i)
  ↔ (Z.of_nat t < sh.1.1.1 ∧ Z.of_nat k < sh.1.1.2 ∧ Z.of_nat j < sh.1.2 ∧ Z.of_nat i < sh.2)%Z.
Proof.
  destruct sh as [[[nt nz] ny] nx]. cbn [fst snd]. split.
  - intros [x Hx]. unfold cell, full in Hx.
    destruct (replicate (Z.to_nat nt) _ !! t) as [a|] eqn:Ht; simpl in Hx; [|done].
    apply lookup_replicate in Ht as [-> Ht].
    destruct (replicate (Z.to_nat nz) _ !! k) as [b|] eqn:Hk; simpl in Hx; [|done].
    apply lookup_replicate in Hk as [-> Hk].
    destruct (replicate (Z.to_nat ny) _ !! j) as [c|] eqn:Hj; simpl in Hx; [|done].
    apply lookup_replicate in Hj as [-> Hj].
    apply lookup_replicate in Hx as [_ Hi]. lia.
  - intros (Ht & Hk & Hj & Hi). rewrite cell_full by done. by eexists.
Qed.

Lemma cell_full_in_grid {F A} (self : ForcingFileGenerator_of F) (v : A) t k j i :
  is_Some (cell (full (shape self) v) t k j i) ↔ in_grid self t k j i.
Proof. apply cell_full_is_Some. Qed.

Lemma slice_fill_shape self cfg bw h a t k j i :
  is_Some (cell (slice_fill self cfg bw h a) t k j i) ↔ is_Some (cell a t k j i).
Proof. by rewrite cell_slice_fill, fmap_is_Some. Qed.

(** X1. The loop nest of a boundary tracer never changes the shape of its
    arrays: whatever the configuration and the buffer width, [data] and
    [data_lambda] hold a number exactly at the cells of the grid. *)
Theorem boundary_arrays_shape self cfg bw t k j i :
  (is_Some (cell (boundary_arrays self cfg bw).1 t k j i) ↔ in_grid self t k j i) ∧
  (is_Some (cell (boundary_arrays self cfg bw).2 t k j i) ↔ in_grid self t k j i).
Proof.
  unfold boundary_arrays. rewrite boundary_fill_split. cbn [fst snd].
  rewrite !slice_fill_shape. split; apply cell_full_in_grid.
Qed.

(** X2. The loop indices of a boundary tracer stay inside the arrays: for
    every buffer width and every extent, an index that the loop of an
    edge visits satisfies [0 <= p < extent] on the axis it is used on. *)
Theorem buffer_range_within_axis self bw e p :
  p ∈ buffer_range self bw e → (0 ≤ p < axis_extent self e)%Z.
Proof.
  destruct e; simpl; rewrite ?elem_of_range, ?elem_of_range2; lia.
Qed.

Lemma buffer_range_within_axis_witness :
  (0 ≤ 2 < axis_extent small_grid East)%Z.
Proof. apply (buffer_range_within_axis small_grid 50 East 2). vm_compute. repeat constructor. Defined.

(** ** Further properties of the boundary arrays *)

(** X3. The arrays of a boundary tracer do not vary with time or depth:
    two cells of the grid in the same row and column hold the same value
    and the same relaxation rate. *)
Theorem boundary_arrays_constant_in_time_and_depth self cfg bw t k t' k' j i :
  in_grid self t k j i → in_grid self t' k' j i →
  cell (boundary_arrays self cfg bw).1 t k j i
  = cell (boundary_arrays self cfg bw).1 t' k' j i ∧
  cell (boundary_arrays self cfg bw).2 t k j i
  = cell (boundary_arrays self cfg bw).2 t' k' j i.
Proof.
  intros Hg Hg'. by rewrite !boundary_value_cell, !boundary_rate_cell.
Qed.

Lemma boundary_arrays_constant_in_time_and_depth_witness :
  cell (boundary_arrays grid_two_steps cfg_west_south 2).1 0 0 1 2
  = cell (boundary_arrays grid_two_steps cfg_west_south 2).1 1 1 1 2 ∧
  cell (boundary_arrays grid_two_steps cfg_west_south 2).2 0 0 1 2
  = cell (boundary_arrays grid_two_steps cfg_west_south 2).2 1 1 1 2.
Proof.
  apply (boundary_arrays_constant_in_time_and_depth grid_two_steps cfg_west_south 2
           0 0 1 1 1 2).
  - unfold in_grid. simpl. lia.
  - unfold in_grid. simpl. lia.
Defined.

Lemma edge_rate_bounds_nonneg self cfg bw j i e :
  0 <= lambda_val cfg → In e (reaching self cfg bw j i) →
  0 <= edge_rate self cfg bw j i e ∧ edge_rate self cfg bw j i e <= lambda_val cfg.
Proof.
  intros Hl Hin. apply reaching_spec in Hin as [_ Hin].
  destruct (weight_bounds _ _ _ _ _ Hin) as [Hw0 Hw1].
  unfold edge_rate. split; nra.
Qed.

Lemma rate_fold_bounds self cfg bw j i :
  0 <= lambda_val cfg →
  let r := foldl Qmax 0 (List.map (edge_rate self cfg bw j i) (reaching self cfg bw j i)) in
  0 <= r ∧ r <= lambda_val cfg.
Proof.
  intros Hl r. split.
  - apply foldl_max_ge_init.
  - apply foldl_max_le; [done|]. intros r' Hin.
    apply in_map_iff in Hin as (e & <- & He).
    by apply edge_rate_bounds_nonneg.
Qed.

(** X4. With [lambda >= 0], the relaxation rate at every cell of the grid
    lies between [0] and [lambda], whatever the buffer width and whichever
    edges are set. *)
Theorem relax_rate_between_zero_and_lambda self cfg bw t k j i :
  0 <= lambda_val cfg → in_grid self t k j i →
  ∃ r, cell (boundary_arrays self cfg bw).2 t k j i = Some r ∧
       0 <= r ∧ r <= lambda_val cfg.
Proof.
  intros Hl Hg.
  destruct (reaching_cell_values self cfg bw t k j i Hg) as (es & -> & _ & Hr).
  eexists. split; [exact Hr|]. by apply rate_fold_bounds.
Qed.

Lemma relax_rate_between_zero_and_lambda_witness :
  ∃ r, cell (boundary_arrays small_grid cfg_west_south 2).2 0 0 1 1 = Some r ∧
       0 <= r ∧ r <= lambda_val cfg_west_south.
Proof.
  apply (relax_rate_between_zero_and_lambda small_grid cfg_west_south 2 0 0 1 1).
  - vm_compute. discriminate.
  - unfold in_grid. simpl. lia.
Defined.

Lemma Qmax_left (x y : Q) : y <= x → Qmax x y = x.
Proof.
  intros Hyx. unfold Qmax, GenericMinMax.gmax.
  destruct (x ?= y) eqn:E; try done.
  apply Qlt_alt in E. lra.
Qed.

Lemma foldl_max_fixed (rs : list Q) (x : Q) :
  (∀ r, In r rs → r <= x) → foldl Qmax x rs = x.
Proof.
  induction rs as [|r rs IH]; intros Hrs; simpl; [done|].
  rewrite Qmax_left by (apply Hrs; by left).
  apply IH. intros r' Hr'. apply Hrs. by right.
Qed.

Lemma rate_fold_zero self cfg bw j i :
  lambda_val cfg <= 0 →
  foldl Qmax 0 (List.map (edge_rate self cfg bw j i) (reaching self cfg bw j i)) = 0.
Proof.
  intros Hl. apply foldl_max_fixed. intros r Hin.
  apply in_map_iff in Hin as (e & <- & He).
  apply reaching_spec in He as [_ He].
  destruct (weight_bounds _ _ _ _ _ He) as [Hw0 Hw1].
  unfold edge_rate. nra.
Qed.

(** X5. With [lambda <= 0] no edge raises a rate: [np.maximum] keeps the
    initial [0.0], so the relaxation rate is [0] at every cell of the
    grid, also inside the buffer zone of a set edge. *)
Theorem nonpositive_lambda_leaves_rates_zero self cfg bw t k j i :
  lambda_val cfg <= 0 → in_grid self t k j i →
  cell (boundary_arrays self cfg bw).2 t k j i = Some 0.
Proof.
  intros Hl Hg.
  destruct (reaching_cell_values self cfg bw t k j i Hg) as (es & -> & _ & Hr).
  by rewrite Hr, rate_fold_zero.
Qed.

Lemma nonpositive_lambda_leaves_rates_zero_witness :
  cell (boundary_arrays small_grid cfg_negative_lambda 2).2 0 0 0 0 = Some 0.
Proof.
  apply (nonpositive_lambda_leaves_rates_zero small_grid cfg_negative_lambda 2 0 0 0 0).
  - vm_compute. discriminate.
  - unfold in_grid. simpl. lia.
Defined.

(** X6. Whatever [lambda] and the buffer width, the value at a cell of the
    grid is the sentinel [-999.0] when no set edge's buffer zone contains
    the cell, and otherwise it is the boundary value of a set edge whose
    buffer zone contains the cell, hence above [-990]. *)
Theorem value_is_sentinel_or_reaching_edge self cfg bw t k j i :
  in_grid self t k j i →
  ∃ v, cell (boundary_arrays self cfg bw).1 t k j i = Some v ∧
    ((∀ e, -990 < boundary_value cfg e →
           in_buffer self bw e (Z.of_nat j) (Z.of_nat i) = false) →
     v = -999.0) ∧
    ((∃ e, -990 < boundary_value cfg e ∧
           in_buffer self bw e (Z.of_nat j) (Z.of_nat i) = true) →
     -990 < v ∧
     ∃ e, v = boundary_value cfg e ∧ -990 < boundary_value cfg e ∧
          in_buffer self bw e (Z.of_nat j) (Z.of_nat i) = true).
Proof.
  intros Hg.
  destruct (reaching_cell_values self cfg bw t k j i Hg) as (es & Hes & Hv & _).
  eexists. split; [exact Hv|]. split.
  - intros Hnone. destruct es as [|e0 es'] eqn:Hl; [done|].
    assert (In e0 (reaching self cfg bw (Z.of_nat j) (Z.of_nat i))) as Hin
      by (rewrite <- Hes; by left).
    apply reaching_spec in Hin as [Hset Hbuf].
    by rewrite (Hnone e0 Hset) in Hbuf.
  - intros (e & He). apply reaching_spec in He. rewrite <- Hes in He.
    destruct (last es) as [e'|] eqn:Hlast.
    + assert (In e' es) as Hin.
      { by apply list_elem_of_In, last_Some_elem_of. }
      rewrite Hes in Hin. apply reaching_spec in Hin as [Hset Hbuf].
      simpl. split; [done|]. by exists e'.
    + apply last_None in Hlast. rewrite Hlast in He. destruct He.
Qed.

Lemma value_is_sentinel_or_reaching_edge_witness :
  ∃ v, cell (boundary_arrays small_grid cfg_west_south 2).1 0 0 2 2 = Some v ∧
    ((∀ e, -990 < boundary_value cfg_west_south e →
           in_buffer small_grid 2 e 2 2 = false) →
     v = -999.0) ∧
    ((∃ e, -990 < boundary_value cfg_west_south e ∧
           in_buffer small_grid 2 e 2 2 = true) →
     -990 < v ∧
     ∃ e, v = boundary_value cfg_west_south e ∧ -990 < boundary_value cfg_west_south e ∧
          in_buffer small_grid 2 e 2 2 = true).
Proof.
  apply (value_is_sentinel_or_reaching_edge small_grid cfg_west_south 2 0 0 2 2).
  unfold in_grid. simpl. lia.
Defined.

Lemma at_wall_in_buffer self bw e j i :
  (1 ≤ bw)%Z → (0 ≤ j < Ny self)%Z → (0 ≤ i < Nx self)%Z →
  at_wall self e j i → in_buffer self bw e j i = true.
Proof.
  intros Hbw Hj Hi Hw. apply in_buffer_range.
  destruct e; simpl in *; rewrite ?elem_of_range, ?elem_of_range2; lia.
Qed.

Lemma at_wall_edge_rate self cfg bw e j i :
  at_wall self e j i → edge_rate self cfg bw j i e == lambda_val cfg.
Proof.
  intros Hw. unfold edge_rate.
  assert (weight self bw e (sel e j i) == 1) as ->; [|ring].
  destruct e; simpl in *; subst;
    rewrite ?Z.sub_diag; change (inject_Z 0) with 0; unfold Qdiv; ring.
Qed.

(** X7. With [lambda >= 0] and [buffer_width >= 1], in the row or column
    next to the wall of a set edge the relaxation rate is [lambda]
    itself: the taper has weight one there and no other edge exceeds
    it. *)
Theorem wall_rate_is_lambda self cfg bw e t k j i :
  0 <= lambda_val cfg → (1 ≤ bw)%Z → -990 < boundary_value cfg e →
  in_grid self t k j i → at_wall self e (Z.of_nat j) (Z.of_nat i) →
  ∃ r, cell (boundary_arrays self cfg bw).2 t k j i = Some r ∧ r == lambda_val cfg.
Proof.
  intros Hl Hbw Hset Hg Hw.
  destruct (reaching_cell_values self cfg bw t k j i Hg) as (es & Hes & _ & Hr).
  eexists. split; [exact Hr|]. subst es.
  destruct (rate_fold_bounds self cfg bw (Z.of_nat j) (Z.of_nat i) Hl) as [_ Hle].
  assert (In e (reaching self cfg bw (Z.of_nat j) (Z.of_nat i))) as Hin.
  { apply reaching_spec. split; [done|].
    destruct Hg as (_ & _ & Hj & Hi). apply at_wall_in_buffer; (done || lia). }
  pose proof (foldl_max_ge_elem _ 0 _
    (in_map (edge_rate self cfg bw (Z.of_nat j) (Z.of_nat i)) _ _ Hin)) as Hge.
  pose proof (at_wall_edge_rate self cfg bw e _ _ Hw) as Heq.
  lra.
Qed.

Lemma wall_rate_is_lambda_witness :
  ∃ r, cell (boundary_arrays small_grid cfg_west_south 2).2 0 0 0 2 = Some r ∧
       r == lambda_val cfg_west_south.
Proof.
  apply (wall_rate_is_lambda small_grid cfg_west_south 2 South 0 0 0 2).
  - vm_compute. discriminate.
  - lia.
  - reflexivity.
  - unfold in_grid. simpl. lia.
  - reflexivity.
Defined.

Lemma foldl_ext_all {A B} (f g : A → B → A) (l : list B) (s : A) :
  (∀ s x, f s x = g s x) → foldl f s l = foldl g s l.
Proof.
  intros Hfg. revert s. induction l as [|x l IH]; intros s; simpl; [done|].
  by rewrite Hfg, IH.
Qed.

Lemma edge_pass_same_forcing self cfg cfg' bw t k s e :
  same_forcing cfg cfg' →
  edge_pass self cfg bw t k s e = edge_pass self cfg' bw t k s e.
Proof.
  intros [Hl Hedges]. destruct (Hedges e) as [Hset Hval]. unfold edge_pass.
  rewrite <- Hset. destruct (Qgtb (boundary_value cfg e) (-990)); [|done].
  by rewrite <- Hval, <- Hl.
Qed.

(** X8. Only the set edges and [lambda] matter: an edge whose value is
    not above [-990] is skipped like an edge whose key is missing, so
    two configurations that set the same edges to the same values and
    have the same [lambda] (given or defaulted) yield the same arrays. *)
Theorem unset_edges_are_ignored self cfg cfg' bw :
  same_forcing cfg cfg' →
  boundary_arrays self cfg bw = boundary_arrays self cfg' bw.
Proof.
  intros Hsame. unfold boundary_arrays, boundary_fill.
  apply foldl_ext_all. intros s1 t.
  apply foldl_ext_all. intros s2 k.
  apply foldl_ext_all. intros s3 e.
  by apply edge_pass_same_forcing.
Qed.

Lemma unset_edges_are_ignored_witness :
  boundary_arrays small_grid cfg_west_south 2
  = boundary_arrays small_grid cfg_west_south_explicit 2.
Proof.
  apply (unset_edges_are_ignored small_grid cfg_west_south cfg_west_south_explicit 2).
  split; [reflexivity|]. intros e. by destruct e.
Defined.




Lemma in_buffer_distance self bw e j i :
  (0 ≤ j < Ny self)%Z → (0 ≤ i < Nx self)%Z →
  in_buffer self bw e j i = true ↔ (wall_distance self e j i < bw)%Z.
Proof.
  intros Hj Hi. rewrite <- in_buffer_range.
  destruct e; simpl; rewrite ?elem_of_range, ?elem_of_range2; lia.
Qed.

(** X10. The buffer zone of an edge is the band of cells at a distance of
    less than [buffer_width] from its wall, also when the band is wider
    than the grid: whatever [lambda], the value at a cell of the grid is
    above [-990] exactly when the cell is at a distance of less than
    [buffer_width] from the wall of some set edge. *)
Theorem value_set_iff_near_a_set_wall self cfg bw t k j i :
  in_grid self t k j i →
  ∃ v, cell (boundary_arrays self cfg bw).1 t k j i = Some v ∧
    (-990 < v ↔
     ∃ e, -990 < boundary_value cfg e ∧
          (wall_distance self e (Z.of_nat j) (Z.of_nat i) < bw)%Z).
Proof.
  intros Hg.
  destruct (reaching_cell_values self cfg bw t k j i Hg) as (es & Hes & Hv & _).
  destruct Hg as (_ & _ & Hj & Hi).
  assert (∀ e, In e es ↔ -990 < boundary_value cfg e ∧
                 (wall_distance self e (Z.of_nat j) (Z.of_nat i) < bw)%Z) as Hreach.
  { intros e. rewrite Hes, reaching_spec, in_buffer_distance by lia. done. }
  eexists. split; [exact Hv|].
  destruct (last es) as [e'|] eqn:Hlast; simpl.
  - assert (In e' es) as Hin by (by apply list_elem_of_In, last_Some_elem_of).
    apply Hreach in Hin as [Hset Hd]. split; [by exists e'|done].
  - apply last_None in Hlast. split.
    + intros Hlt. vm_compute in Hlt. discriminate.
    + intros (e & He). apply Hreach in He. rewrite Hlast in He. destruct He.
Qed.

Lemma value_set_iff_near_a_set_wall_witness :
  ∃ v, cell (boundary_arrays small_grid cfg_west_south 5).1 0 0 2 2 = Some v ∧
    (-990 < v ↔
     ∃ e, -990 < boundary_value cfg_west_south e ∧
          (wall_distance small_grid e 2 2 < 5)%Z).
Proof.
  apply (value_set_iff_near_a_set_wall small_grid cfg_west_south 5 0 0 2 2).
  unfold in_grid. simpl. lia.
Defined.

(** ** Runs of the loops over the tracers *)

(** A loop whose body appends [evs x] and ends in [res x] either runs
    through, or stops at the first element whose body raises. *)
Lemma for_each_run {A} (body : A → M unit) (evs : A → list event)
    (res : A → exn + unit) (l : list A) :
  (∀ x log, In x l → body x log = (log ++ evs x, res x)) →
  ∀ log,
    (Forall (λ x, res x = inr ()) l ∧
     for_each l body log = (log ++ concat (evs <$> l), inr ())) ∨
    (∃ l0 x l2 e, l = l0 ++ x :: l2 ∧ Forall (λ y, res y = inr ()) l0 ∧
       res x = inl e ∧
       for_each l body log = (log ++ concat (evs <$> l0) ++ evs x, inl e)).
Proof.
  induction l as [|x l IH]; intros Hbody log.
  - left. split; [done|]. simpl. by rewrite app_nil_r.
  - cbn [for_each]. rewrite run_bind, (Hbody x log) by (by left).
    destruct (res x) as [e|[]] eqn:Hres.
    + right. exists [], x, l, e. by rewrite Hres.
    + destruct (IH (λ y log' Hy, Hbody y log' (or_intror Hy)) (log ++ evs x))
        as [[Hall Hrun]|(l0 & y & l2 & e & -> & Hall & Hy & Hrun)].
      * left. split; [by constructor|]. rewrite Hrun. simpl. by rewrite <- app_assoc.
      * right. exists (x :: l0), y, l2, e. split; [done|]. split; [by constructor|].
        split; [done|]. rewrite Hrun. simpl. by rewrite <- !app_assoc.
Qed.

Lemma run_open_dataset_at self filepath log :
  open_dataset self filepath log = (log ++ open_log self filepath, inr ()).
Proof.
  unfold open_dataset. do 6 run_step. unfold emit, open_log.
  by rewrite <- !app_assoc.
Qed.

Lemma run_create_boundary_file self filepath dict bw log :
  valid_shape self →
  let res := λ item : string * tracer_config,
    boundary_stats (boundary_arrays self item.2 bw).1 (boundary_arrays self item.2 bw).2 in
  (Forall (λ item, res item = inr ()) dict ∧
   create_boundary_file self filepath dict bw log
   = (log ++ open_log self filepath ++ concat (boundary_tracer_log self bw <$> dict)
        ++ boundary_closing_log, inr ())) ∨
  (∃ l0 item l2 e, dict = l0 ++ item :: l2 ∧ Forall (λ item, res item = inr ()) l0 ∧
     res item = inl e ∧
     create_boundary_file self filepath dict bw log
     = (log ++ open_log self filepath ++ concat (boundary_tracer_log self bw <$> l0)
          ++ boundary_tracer_log self bw item, inl e)).
Proof.
  intros Hshape res. unfold create_boundary_file.
  rewrite run_bind, run_open_dataset_at. rewrite run_bind.
  destruct (for_each_run (boundary_tracer self bw) (boundary_tracer_log self bw) res dict)
    with (log := log ++ open_log self filepath)
    as [[Hall Hrun]|(l0 & item & l2 & e & Hdict & Hall & Hitem & Hrun)].
  { intros [name cfg] log' _. by apply run_boundary_tracer. }
  - left. split; [done|]. rewrite Hrun. do 3 run_step.
    unfold emit, boundary_closing_log. by rewrite <- !app_assoc.
  - right. exists l0, item, l2, e. rewrite Hrun. by rewrite <- !app_assoc.
Qed.

(** ** The statistics of a boundary tracer *)

Lemma Qgtb_lt (x y : Q) : Qgtb x y = true ↔ y < x.
Proof.
  unfold Qgtb. rewrite negb_true_iff, <- not_true_iff_false, Qle_bool_iff.
  split; intros H; lra.
Qed.

Lemma existsb_lookup {A} (p : A → bool) (l : list A) :
  existsb p l = true ↔ ∃ n x, l !! n = Some x ∧ p x = true.
Proof.
  rewrite existsb_exists. split.
  - intros (x & Hin & Hp). apply list_elem_of_In, list_elem_of_lookup in Hin as [n Hn].
    by exists n, x.
  - intros (n & x & Hn & Hp). exists x. split; [|done].
    apply list_elem_of_In, list_elem_of_lookup. by exists n.
Qed.

Lemma any4_cell {A} (p : A → bool) (a : array4_of A) :
  any4 p a = true ↔ ∃ t k j i x, cell a t k j i = Some x ∧ p x = true.
Proof.
  unfold any4, cell. rewrite existsb_lookup. split.
  - intros (t & depths & Ht & H). apply existsb_lookup in H as (k & rows & Hk & H).
    apply existsb_lookup in H as (j & row & Hj & H).
    apply existsb_lookup in H as (i & x & Hi & Hp).
    exists t, k, j, i, x. rewrite Ht. simpl. rewrite Hk. simpl. by rewrite Hj.
  - intros (t & k & j & i & x & Hc & Hp).
    destruct (a !! t) as [depths|] eqn:Ht; simpl in Hc; [|done].
    destruct (depths !! k) as [rows|] eqn:Hk; simpl in Hc; [|done].
    destruct (rows !! j) as [row|] eqn:Hj; simpl in Hc; [|done].
    exists t, depths. split; [done|]. apply existsb_lookup.
    exists k, rows. split; [done|]. apply existsb_lookup.
    exists j, row. split; [done|]. apply existsb_lookup. by exists i, x.
Qed.

Lemma in_buffer_width (self : ForcingFileGenerator) bw e j i :
  in_buffer self bw e j i = true → (1 ≤ bw)%Z.
Proof.
  intros Hin. apply in_buffer_range in Hin.
  destruct e; simpl in Hin; rewrite ?elem_of_range, ?elem_of_range2 in Hin; lia.
Qed.

Lemma wall_cell_exists self e :
  positive_grid self →
  ∃ j i, in_grid self 0 0 j i ∧ at_wall self e (Z.of_nat j) (Z.of_nat i).
Proof.
  intros (Ht & Hz & Hy & Hx). unfold in_grid. destruct e; simpl.
  - exists 0%nat, 0%nat. lia.
  - exists 0%nat, (Z.to_nat (Nx self - 1)). lia.
  - exists 0%nat, 0%nat. lia.
  - exists (Z.to_nat (Ny self - 1)), 0%nat. lia.
Qed.

Lemma cell_nonempty {A} (a : array4_of A) t k j i x : cell a t k j i = Some x → a ≠ [].
Proof. intros Hc ->. unfold cell in Hc. by rewrite lookup_nil in Hc. Qed.

Lemma boundary_stats_ok (data data_lambda : array4) :
  data_lambda ≠ [] →
  any4 (λ x, Qgtb x (-990)) data = true → any4 (λ x, Qgtb x 0) data_lambda = true →
  boundary_stats data data_lambda = inr ().
Proof.
  intros Hne Hv Hr. unfold boundary_stats. rewrite Hv, Hr. by destruct data_lambda.
Qed.

Lemma boundary_stats_inv (data data_lambda : array4) :
  boundary_stats data data_lambda = inr () →
  any4 (λ x, Qgtb x (-990)) data = true ∧ any4 (λ x, Qgtb x 0) data_lambda = true.
Proof.
  unfold boundary_stats. destruct data_lambda as [|d0 dl]; [done|].
  destruct (any4 (λ x, Qgtb x (-990)) data); cbn [negb]; [|done].
  by destruct (any4 (λ x, Qgtb x 0) (d0 :: dl)).
Qed.

Lemma boundary_stats_cases (data data_lambda : array4) :
  data_lambda ≠ [] →
  boundary_stats data data_lambda = inr () ∨ boundary_stats data data_lambda = inl ValueError.
Proof.
  intros Hne. unfold boundary_stats. destruct data_lambda as [|d0 dl]; [done|].
  destruct (negb _); [by right|]. destruct (negb _); [by right|by left].
Qed.

(** On a grid with positive extents the statistics of a tracer pass
    exactly when an edge is set, [lambda] is positive and the buffer is at
    least one cell wide; the only exception they raise is [ValueError]. *)
Lemma boundary_stats_forced self cfg bw :
  positive_grid self →
  let stats := boundary_stats (boundary_arrays self cfg bw).1
                              (boundary_arrays self cfg bw).2 in
  (stats = inr () ↔ forced cfg ∧ (1 ≤ bw)%Z) ∧ (stats = inr () ∨ stats = inl ValueError).
Proof.
  intros Hpos stats.
  assert (in_grid self 0 0 0 0) as Hg0 by (unfold in_grid; destruct Hpos; lia).
  assert (Hne : (boundary_arrays self cfg bw).2 ≠ []).
  { destruct (reaching_cell_values self cfg bw 0 0 0 0 Hg0) as (es & _ & _ & Hx).
    by apply (cell_nonempty _ _ _ _ _ _ Hx). }
  split; [|by apply boundary_stats_cases]. split.
  - intros Hok. apply boundary_stats_inv in Hok as [Hv Hr].
    apply any4_cell in Hv as (t & k & j & i & v & Hv & Hpv).
    apply any4_cell in Hr as (t' & k' & j' & i' & r & Hr & Hpr).
    apply Qgtb_lt in Hpv, Hpr.
    assert (in_grid self t k j i) as Hg.
    { apply (cell_full_in_grid self (-999.0)), (slice_fill_shape self cfg bw (value_upd cfg)).
      unfold boundary_arrays in Hv. rewrite boundary_fill_split in Hv. by eexists. }
    assert (in_grid self t' k' j' i') as Hg'.
    { apply (cell_full_in_grid self 0),
        (slice_fill_shape self cfg bw (rate_upd self cfg bw)).
      unfold boundary_arrays in Hr. rewrite boundary_fill_split in Hr. by eexists. }
    destruct (reaching_cell_values self cfg bw t k j i Hg) as (es & Hes & Hv' & _).
    rewrite Hv in Hv'. injection Hv' as Hv'.
    destruct (last es) as [e|] eqn:Hlast;
      [|simpl in Hv'; rewrite Hv' in Hpv; vm_compute in Hpv; discriminate].
    assert (In e es) as Hin by (by apply list_elem_of_In, last_Some_elem_of).
    rewrite Hes in Hin. apply reaching_spec in Hin as [Hset Hbuf].
    split; [|by eapply in_buffer_width]. split; [|by exists e].
    destruct (Qlt_le_dec 0 (lambda_val cfg)) as [|Hle]; [done|].
    destruct (reaching_cell_values self cfg bw t' k' j' i' Hg') as (es' & -> & _ & Hr').
    rewrite Hr', rate_fold_zero in Hr by done. injection Hr as <-. lra.
  - intros [[Hl [e Hset]] Hbw].
    destruct (wall_cell_exists self e Hpos) as (j & i & Hg & Hw).
    destruct (reaching_cell_values self cfg bw 0 0 j i Hg) as (es & Hes & Hv & Hr).
    assert (In e es) as Hin.
    { rewrite Hes. apply reaching_spec. split; [done|].
      destruct Hg as (_ & _ & Hj & Hi). apply at_wall_in_buffer; (done || lia). }
    assert (any4 (λ x, Qgtb x (-990)) (boundary_arrays self cfg bw).1 = true) as Hav.
    { apply any4_cell. eexists 0%nat, 0%nat, j, i, _. split; [exact Hv|].
      apply Qgtb_lt. destruct (last es) as [e'|] eqn:Hlast.
      - assert (In e' es) as Hin' by (by apply list_elem_of_In, last_Some_elem_of).
        rewrite Hes in Hin'. by apply reaching_spec in Hin' as [Hset' _].
      - apply last_None in Hlast. rewrite Hlast in Hin. destruct Hin. }
    assert (any4 (λ x, Qgtb x 0) (boundary_arrays self cfg bw).2 = true) as Har.
    { apply any4_cell. eexists 0%nat, 0%nat, j, i, _. split; [exact Hr|].
      apply Qgtb_lt.
      pose proof (foldl_max_ge_elem
        (List.map (edge_rate self cfg bw (Z.of_nat j) (Z.of_nat i)) es) 0 _
        (in_map _ _ _ Hin)) as Hge.
      pose proof (at_wall_edge_rate self cfg bw e _ _ Hw) as Heq. lra. }
    by apply boundary_stats_ok.
Qed.

(** ** Complete runs of the boundary file *)

Lemma positive_grid_valid self : positive_grid self → valid_shape self.
Proof. unfold positive_grid, valid_shape. lia. Qed.

Lemma run_boundary_file_ok self filepath dict bw log :
  positive_grid self → (1 ≤ bw)%Z → Forall (λ item, forced item.2) dict →
  create_boundary_file self filepath dict bw log
  = (log ++ open_log self filepath ++ concat (boundary_tracer_log self bw <$> dict)
       ++ boundary_closing_log, inr ()).
Proof.
  intros Hpos Hbw Hforced.
  destruct (run_create_boundary_file self filepath dict bw log (positive_grid_valid _ Hpos))
    as [[_ Hrun]|(l0 & item & l2 & e & -> & _ & Hitem & _)]; [done|].
  apply Forall_app in Hforced as [_ Hforced].
  apply Forall_cons in Hforced as [Hitem' _].
  destruct (boundary_stats_forced self item.2 bw Hpos) as [[_ Hok] _].
  rewrite Hok in Hitem; done.
Qed.

(** X11. On a grid with positive extents and with [buffer_width >= 1], if
    every tracer has a positive [lambda] and at least one set edge, the
    boundary build returns normally, and its events are, in this order:
    the dataset, its dimensions and the time variable; for each tracer,
    in the order of the dict, the two variables, the allocation of the
    two arrays and the writing of the arrays of that tracer; the three
    attributes; the closing of the dataset. *)
Theorem boundary_file_complete self filepath dict bw :
  positive_grid self → (1 ≤ bw)%Z → Forall (λ item, forced item.2) dict →
  create_boundary_file self filepath dict bw []
  = (open_log self filepath ++ concat (boundary_tracer_log self bw <$> dict)
       ++ boundary_closing_log, inr ()).
Proof. apply run_boundary_file_ok. Qed.

Lemma boundary_file_complete_witness :
  create_boundary_file small_grid "bc.nc" [("T", cfg_west_south)] 2 []
  = (open_log small_grid "bc.nc"
       ++ concat (boundary_tracer_log small_grid 2 <$> [("T", cfg_west_south)])
       ++ boundary_closing_log, inr ()).
Proof.
  apply (boundary_file_complete small_grid "bc.nc" [("T", cfg_west_south)] 2).
  - unfold positive_grid. simpl. lia.
  - lia.
  - constructor; [|constructor]. split; [reflexivity|]. by exists West.
Defined.

(** X12. On a grid with positive extents the boundary build returns
    normally exactly when every tracer has a positive [lambda] and at
    least one set edge and, if there is a tracer at all, [buffer_width]
    is at least one; in every other case it raises [ValueError]. *)
Theorem boundary_file_returns_iff self filepath dict bw :
  positive_grid self →
  let outcome := (create_boundary_file self filepath dict bw []).2 in
  (outcome = inr () ↔ Forall (λ item, forced item.2 ∧ (1 ≤ bw)%Z) dict) ∧
  (outcome = inr () ∨ outcome = inl ValueError).
Proof.
  intros Hpos outcome. subst outcome.
  destruct (run_create_boundary_file self filepath dict bw [] (positive_grid_valid _ Hpos))
    as [[Hall Hrun]|(l0 & item & l2 & e & -> & _ & Hitem & Hrun)]; rewrite Hrun; simpl.
  - split; [|by left]. split; [|done]. intros _.
    eapply Forall_impl; [exact Hall|]. intros item Hitem.
    by apply (boundary_stats_forced self item.2 bw Hpos).
  - destruct (boundary_stats_forced self item.2 bw Hpos) as [Hiff Hcases].
    rewrite Hitem in Hiff, Hcases. split.
    + split; [done|]. intros Hall.
      apply Forall_app in Hall as [_ Hall]. apply Forall_cons in Hall as [Hok _].
      by apply Hiff in Hok.
    + right. by destruct Hcases as [|[= ->]].
Qed.

Lemma boundary_file_returns_iff_witness :
  let outcome := (create_boundary_file small_grid "bc.nc" [("T", cfg_no_edge)] 2 []).2 in
  (outcome = inr () ↔ Forall (λ item, forced item.2 ∧ (1 ≤ 2)%Z) [("T", cfg_no_edge)]) ∧
  (outcome = inr () ∨ outcome = inl ValueError).
Proof.
  apply (boundary_file_returns_iff small_grid "bc.nc" [("T", cfg_no_edge)] 2).
  unfold positive_grid. simpl. lia.
Defined.

Lemma for_each_stop {A} (body : A → M unit) (evs : A → list event)
    (l0 : list A) (x : A) (l2 : list A) (e : exn) :
  (∀ y log, In y l0 → body y log = (log ++ evs y, inr ())) →
  (∀ log, body x log = (log ++ evs x, inl e)) →
  ∀ log, for_each (l0 ++ x :: l2) body log
         = (log ++ concat (evs <$> l0) ++ evs x, inl e).
Proof.
  intros Hok Hfail. induction l0 as [|y l0 IH]; intros log.
  - cbn [app for_each]. by rewrite run_bind, Hfail.
  - cbn [app for_each]. rewrite run_bind, Hok by (by left).
    rewrite IH by (intros z log' Hz; apply Hok; by right).
    simpl. by rewrite <- !app_assoc.
Qed.

(** X13. A failing boundary build leaves a partial file: on a grid with
    positive extents, if the tracers before some tracer all have a
    positive [lambda], a set edge and [buffer_width >= 1], and that tracer
    has not, then the build raises [ValueError] when the variables of all
    those tracers, the offending one included, have been created and
    written; the tracers after it have not been touched, no attribute is
    set and the dataset is not closed. *)
Theorem boundary_file_fails_after_writing self filepath l0 item l2 bw :
  positive_grid self →
  Forall (λ item, forced item.2 ∧ (1 ≤ bw)%Z) l0 →
  ¬ (forced item.2 ∧ (1 ≤ bw)%Z) →
  create_boundary_file self filepath (l0 ++ item :: l2) bw []
  = (open_log self filepath ++ concat (boundary_tracer_log self bw <$> l0)
       ++ boundary_tracer_log self bw item, inl ValueError).
Proof.
  intros Hpos Hok Hbad. unfold create_boundary_file.
  rewrite run_bind, run_open_dataset_at, run_bind.
  rewrite (for_each_stop _ (boundary_tracer_log self bw) l0 item l2 ValueError).
  - by rewrite app_nil_l.
  - intros [name cfg] log Hin. rewrite run_boundary_tracer by by apply positive_grid_valid.
    rewrite Forall_forall in Hok.
    by rewrite (proj2 (proj1 (boundary_stats_forced self cfg bw Hpos))
                  (Hok _ (proj2 (list_elem_of_In _ _) Hin))).
  - intros log. destruct item as [name cfg].
    rewrite run_boundary_tracer by by apply positive_grid_valid.
    destruct (boundary_stats_forced self cfg bw Hpos) as [Hiff [Hcase|Hcase]].
    + by apply Hiff in Hcase.
    + by rewrite Hcase.
Qed.

Lemma boundary_file_fails_after_writing_witness :
  create_boundary_file small_grid "bc.nc"
    ([("T", cfg_west_south)] ++ ("S", cfg_no_edge) :: [("U", cfg_west_south)]) 2 []
  = (open_log small_grid "bc.nc"
       ++ concat (boundary_tracer_log small_grid 2 <$> [("T", cfg_west_south)])
       ++ boundary_tracer_log small_grid 2 ("S", cfg_no_edge), inl ValueError).
Proof.
  apply (boundary_file_fails_after_writing small_grid "bc.nc"
           [("T", cfg_west_south)] ("S", cfg_no_edge) [("U", cfg_west_south)] 2).
  - unfold positive_grid. simpl. lia.
  - constructor; [|constructor]. split; [|lia]. split; [reflexivity|]. by exists West.
  - intros [[_ [e He]] _]. destruct e; vm_compute in He; discriminate.
Defined.

Lemma elem_of_concat {A} (x : A) (ls : list (list A)) :
  x ∈ concat ls ↔ ∃ l, x ∈ l ∧ l ∈ ls.
Proof.
  induction ls as [|l0 ls IH]; simpl.
  - split; [by intros ?%elem_of_nil|]. by intros (l & _ & ?%elem_of_nil).
  - rewrite elem_of_app, IH. split.
    + intros [Hin|(l & Hin & Hl)]; [exists l0|exists l]; (split; [done|]).
      * by left.
      * by right.
    + intros (l & Hin & Hl). apply elem_of_cons in Hl as [->|Hl]; [by left|].
      right. by exists l.
Qed.

Lemma closing_not_in_tracer_logs self bw (l : list (string * tracer_config)) :
  CloseDataset ∉ concat (boundary_tracer_log self bw <$> l).
Proof.
  intros Hin. apply elem_of_concat in Hin as (evs & Hin & Hevs).
  apply list_elem_of_fmap in Hevs as (item & -> & _).
  unfold boundary_tracer_log in Hin.
  repeat (apply elem_of_cons in Hin as [Hin|Hin]; [discriminate|]).
  by apply elem_of_nil in Hin.
Qed.

Lemma closing_not_in_open_log self filepath : CloseDataset ∉ open_log self filepath.
Proof.
  intros Hin. unfold open_log in Hin.
  repeat (apply elem_of_cons in Hin as [Hin|Hin]; [discriminate|]).
  by apply elem_of_nil in Hin.
Qed.

(** X14. The boundary build closes the dataset only at its very end:
    when it returns normally the last call on the dataset is the
    closing, and when it raises, the dataset, already created, has not
    been closed. *)
Theorem boundary_file_closed_iff_returns self filepath dict bw :
  valid_shape self →
  let run := create_boundary_file self filepath dict bw [] in
  (run.2 = inr () → last run.1 = Some CloseDataset) ∧
  (∀ e, run.2 = inl e → (CreateDataset filepath ∈ run.1) ∧ (CloseDataset ∉ run.1)).
Proof.
  intros Hshape run. subst run.
  destruct (run_create_boundary_file self filepath dict bw [] Hshape)
    as [[_ Hrun]|(l0 & item & l2 & e & -> & _ & Hitem & Hrun)];
    rewrite Hrun, app_nil_l; cbn [fst snd].
  - split; [|done]. intros _. unfold boundary_closing_log.
    change [SetAttr "title"; SetAttr "created"; SetAttr "buffer_width"; CloseDataset]
      with ([SetAttr "title"; SetAttr "created"; SetAttr "buffer_width"] ++ [CloseDataset]).
    rewrite !app_assoc. apply last_snoc.
  - split; [done|]. intros e' _. split; [by left|].
    rewrite !not_elem_of_app. split; [apply closing_not_in_open_log|].
    split; [apply closing_not_in_tracer_logs|].
    apply (closing_not_in_tracer_logs self bw [item]).
Qed.

Lemma boundary_file_closed_iff_returns_witness :
  let run := create_boundary_file small_grid "bc.nc" [("T", cfg_no_edge)] 2 [] in
  (run.2 = inr () → last run.1 = Some CloseDataset) ∧
  (∀ e, run.2 = inl e → (CreateDataset "bc.nc" ∈ run.1) ∧ (CloseDataset ∉ run.1)).
Proof.
  apply (boundary_file_closed_iff_returns small_grid "bc.nc" [("T", cfg_no_edge)] 2).
  unfold valid_shape. simpl. lia.
Defined.

(** ** Further properties of the river arrays *)

Lemma np_index_indexable c extent :
  (∃ n, np_index c extent = inr n) ↔ indexable c extent.
Proof.
  unfold np_index, indexable.
  destruct (Z.leb_spec 0 c), (Z.ltb_spec c extent), (Z.leb_spec (- extent) c),
    (Z.ltb_spec c 0); simpl; split; try lia; try (by eexists);
    destruct ((- 2 ^ 63 <=? c)%Z && (c <? 2 ^ 63)%Z); by intros [n ?].
Qed.

Lemma site_addr_indexable self site :
  (∃ a, site_addr self site = inr a) ↔ site_indexable self site.
Proof.
  destruct site as [[i j] k]. unfold site_addr, site_indexable.
  rewrite <- !np_index_indexable. split.
  - intros [a Ha].
    destruct (np_index k (Nz self)) as [|k0]; simpl in Ha; [done|].
    destruct (np_index j (Ny self)) as [|j0]; simpl in Ha; [done|].
    destruct (np_index i (Nx self)) as [|i0]; simpl in Ha; [done|].
    split; [by eexists|]. split; by eexists.
  - intros ([i0 ->] & [j0 ->] & [k0 ->]). by eexists.
Qed.

Lemma river_loop_succeeds self d vals locs :
  ∀ idx s, (∃ s', river_loop self locs idx d vals s = inr s') →
    Forall (site_indexable self) locs ∧
    (locs = [] ∨ (idx + length locs ≤ length d ∧ idx + length locs ≤ length vals)%nat).
Proof.
  induction locs as [|site rest IH]; intros idx s [s' Hs']; [by split; [|left]|].
  simpl in Hs'. unfold list_get in Hs'.
  destruct (d !! idx) as [dv|] eqn:Hd; [|done]. simpl in Hs'.
  destruct (vals !! idx) as [tv|] eqn:Hv; [|done]. simpl in Hs'.
  destruct (site_addr self site) as [e|[[k0 j0] i0]] eqn:Ha.
  { by rewrite (assign_site_error _ _ _ _ _ _ Ha) in Hs'. }
  rewrite (assign_site_ok _ _ _ _ _ _ _ _ Ha) in Hs'. simpl in Hs'.
  destruct (IH (S idx) _ (ex_intro _ s' Hs')) as [Hall Hlen].
  apply lookup_lt_Some in Hd, Hv. split.
  - constructor; [|done]. apply site_addr_indexable. by eexists.
  - right. destruct Hlen as [->|Hlen]; simpl; lia.
Qed.

Lemma river_arrays_ok self locs d vals :
  Forall (site_indexable self) locs →
  (length locs ≤ length d)%nat → (length locs ≤ length vals)%nat →
  ∃ s, river_arrays self locs d vals = inr s.
Proof.
  intros Hall Hd Hv.
  destruct (river_loop_cells self d vals locs 0
              (full (shape self) 0, full (shape self) (-999.0)))
    as (s' & Hs' & _); [|done|done|by exists s'].
  eapply Forall_impl; [exact Hall|]. intros site. apply site_addr_indexable.
Qed.

(** X15. The loop over the river sites succeeds exactly when every
    component of every site lies in [-extent, extent) of its axis and the
    discharge and tracer lists have at least as many entries as there are
    sites; when it fails, the exception is an [IndexError] if every
    component of every site fits numpy's 64-bit index type, and otherwise
    an [IndexError] or an [OverflowError], the latter only when some
    component does not fit. *)
Theorem river_arrays_succeed_iff self locs d vals :
  ((∃ s, river_arrays self locs d vals = inr s)
   ↔ Forall (site_indexable self) locs ∧
     (length locs ≤ length d)%nat ∧ (length locs ≤ length vals)%nat) ∧
  (∀ e, river_arrays self locs d vals = inl e →
        index_error e ∧ (Forall site_fits locs → e = IndexError) ∧
        (e = OverflowError → ¬ Forall site_fits locs)).
Proof.
  split; [split|].
  - intros Hs. apply river_loop_succeeds in Hs as [Hall Hlen]. split; [done|].
    destruct Hlen as [->|Hlen]; simpl in *; lia.
  - intros (Hall & Hd & Hv). by apply river_arrays_ok.
  - intros e. apply river_loop_error.
Qed.

Lemma river_loop_pointwise self d vals locs :
  ∀ idx s s', river_loop self locs idx d vals s = inr s' →
    ∀ k j i, ∃ g1 g2 : Q → Q, ∀ t,
      cell s'.1 t k j i = g1 <$> cell s.1 t k j i ∧
      cell s'.2 t k j i = g2 <$> cell s.2 t k j i.
Proof.
  induction locs as [|site rest IH]; intros idx s s' Hs' k j i.
  - injection Hs' as <-. exists id, id. intros t. by rewrite !option_fmap_id.
  - simpl in Hs'. unfold list_get in Hs'.
    destruct (d !! idx) as [dv|]; [|done]. simpl in Hs'.
    destruct (vals !! idx) as [tv|]; [|done]. simpl in Hs'.
    destruct (assign_site self site dv tv s) as [|s1] eqn:Hs1; [done|]. simpl in Hs'.
    destruct (IH _ _ _ Hs' k j i) as (g1 & g2 & Hg).
    exists (g1 ∘ (if hits self k j i site then λ _, dv else id)),
           (g2 ∘ (if hits self k j i site then λ _, tv else id)).
    intros t. destruct (Hg t) as [-> ->].
    destruct (cell_assign_site self site dv tv s s1 t k j i Hs1) as [-> ->].
    by rewrite !option_fmap_compose.
Qed.

(** X16. A river build that succeeds keeps the shape of its arrays: the
    flux and the value array hold a number exactly at the cells of the
    grid. *)
Theorem river_arrays_shape self locs d vals flux value t k j i :
  river_arrays self locs d vals = inr (flux, value) →
  (is_Some (cell flux t k j i) ↔ in_grid self t k j i) ∧
  (is_Some (cell value t k j i) ↔ in_grid self t k j i).
Proof.
  intros Hs.
  destruct (river_loop_pointwise _ _ _ _ _ _ _ Hs k j i) as (g1 & g2 & Hg).
  destruct (Hg t) as [H1 H2]. cbn [fst snd] in H1, H2.
  rewrite H1, H2, !fmap_is_Some. split; apply cell_full_in_grid.
Qed.

(** X17. The arrays of a river build are constant in time: at two time
    steps of the grid, a cell holds the same flux and the same value. *)
Theorem river_arrays_constant_in_time self locs d vals flux value t t' k j i :
  river_arrays self locs d vals = inr (flux, value) →
  in_grid self t k j i → in_grid self t' k j i →
  cell flux t k j i = cell flux t' k j i ∧ cell value t k j i = cell value t' k j i.
Proof.
  intros Hs (Ht & Hk & Hj & Hi) (Ht' & _).
  destruct (river_loop_pointwise _ _ _ _ _ _ _ Hs k j i) as (g1 & g2 & Hg).
  destruct (Hg t) as [H1 H2]. destruct (Hg t') as [H1' H2'].
  cbn [fst snd] in H1, H2, H1', H2'. rewrite H1, H2, H1', H2'.
  unfold shape. by rewrite !cell_full.
Qed.

Lemma river_loop_independent self locs :
  ∀ idx d1 d2 v1 v2 s1 s2 s1' s2',
    river_loop self locs idx d1 v1 s1 = inr s1' →
    river_loop self locs idx d2 v2 s2 = inr s2' →
    (d1 = d2 → s1.1 = s2.1 → s1'.1 = s2'.1) ∧ (v1 = v2 → s1.2 = s2.2 → s1'.2 = s2'.2).
Proof.
  induction locs as [|site rest IH]; intros idx d1 d2 v1 v2 s1 s2 s1' s2' H1 H2.
  - injection H1 as <-. by injection H2 as <-.
  - simpl in H1, H2. unfold list_get in H1, H2.
    destruct (d1 !! idx) as [dv1|] eqn:Hd1; [|done]. simpl in H1.
    destruct (v1 !! idx) as [tv1|] eqn:Hv1; [|done]. simpl in H1.
    destruct (d2 !! idx) as [dv2|] eqn:Hd2; [|done]. simpl in H2.
    destruct (v2 !! idx) as [tv2|] eqn:Hv2; [|done]. simpl in H2.
    destruct (site_addr self site) as [e|[[k0 j0] i0]] eqn:Ha.
    { by rewrite (assign_site_error _ _ _ _ _ _ Ha) in H1. }
    rewrite (assign_site_ok _ _ _ _ _ _ _ _ Ha) in H1.
    rewrite (assign_site_ok _ _ _ _ _ _ _ _ Ha) in H2. simpl in H1, H2.
    destruct (IH _ _ _ _ _ _ _ _ _ H1 H2) as [IH1 IH2]. split.
    + intros -> Hs. apply IH1; [done|]. simpl.
      assert (dv1 = dv2) as -> by congruence. by rewrite Hs.
    + intros -> Hs. apply IH2; [done|]. simpl.
      assert (tv1 = tv2) as -> by congruence. by rewrite Hs.
Qed.

(** X18. The flux array of a river build does not depend on the tracer
    values, nor the value array on the discharges: two successful builds
    over the same sites with the same discharge list have the same flux
    array, and with the same tracer values the same value array. *)
Theorem river_flux_and_value_independent self locs d1 d2 v1 v2 s1 s2 :
  river_arrays self locs d1 v1 = inr s1 → river_arrays self locs d2 v2 = inr s2 →
  (d1 = d2 → s1.1 = s2.1) ∧ (v1 = v2 → s1.2 = s2.2).
Proof.
  intros H1 H2.
  destruct (river_loop_independent _ _ _ _ _ _ _ _ _ _ _ H1 H2) as [Hf Hv].
  split; intros Heq; [by apply Hf|by apply Hv].
Qed.

Lemma np_index_normalise c extent :
  np_index (normalise c extent) extent = np_index c extent.
Proof.
  unfold normalise.
  destruct (Z.leb_spec (- extent) c), (Z.ltb_spec c 0); simpl; try done.
  rewrite (np_index_wrap c) by lia. apply np_index_in_range. lia.
Qed.

Lemma assign_site_normalise self site dv tv s :
  assign_site self (normalise_site self site) dv tv s = assign_site self site dv tv s.
Proof.
  destruct site as [[i j] k]. unfold assign_site, normalise_site.
  by rewrite !np_index_normalise.
Qed.

(** X19. A negative component of a site is the same as its non-negative
    counterpart [extent + c]: replacing every component that lies in
    [-extent, 0) by [extent + c] changes neither the arrays of a river
    build nor whether it fails. *)
Theorem river_arrays_normalise self locs d vals :
  river_arrays self (normalise_site self <$> locs) d vals = river_arrays self locs d vals.
Proof.
  unfold river_arrays. generalize (full (shape self) 0, full (shape self) (-999.0)).
  generalize 0%nat. induction locs as [|site rest IH]; intros idx s; [done|].
  cbn [fmap list_fmap river_loop].
  destruct (list_get d idx) as [|dv]; [done|]. simpl.
  destruct (list_get vals idx) as [|tv]; [done|]. simpl.
  rewrite assign_site_normalise.
  destruct (assign_site self site dv tv s) as [|s1]; [done|]. simpl. apply IH.
Qed.

Lemma river_arrays_shape_witness :
  ∃ flux value,
    river_arrays small_grid [(1, 2, 0); (-1, 0, 0)]%Z [100.0; 50.0] [8.0; 7.0]
    = inr (flux, value) ∧
    (is_Some (cell flux 0 0 2 1) ↔ in_grid small_grid 0 0 2 1) ∧
    (is_Some (cell value 0 0 2 1) ↔ in_grid small_grid 0 0 2 1).
Proof.
  eexists _, _. split; [vm_compute; reflexivity|].
  apply (river_arrays_shape small_grid [(1, 2, 0); (-1, 0, 0)]%Z [100.0; 50.0] [8.0; 7.0]).
  reflexivity.
Defined.

Lemma river_arrays_constant_in_time_witness :
  ∃ flux value,
    river_arrays grid_two_steps [(1, 2, 0); (-1, 0, 1)]%Z [100.0; 50.0] [8.0; 7.0]
    = inr (flux, value) ∧
    cell flux 0 0 2 1 = cell flux 1 0 2 1 ∧ cell value 0 0 2 1 = cell value 1 0 2 1.
Proof.
  eexists _, _. split; [vm_compute; reflexivity|].
  apply (river_arrays_constant_in_time grid_two_steps [(1, 2, 0); (-1, 0, 1)]%Z
           [100.0; 50.0] [8.0; 7.0]).
  - reflexivity.
  - unfold in_grid. simpl. lia.
  - unfold in_grid. simpl. lia.
Defined.

Lemma river_flux_and_value_independent_witness :
  ∃ s1 s2,
    river_arrays small_grid [(1, 2, 0)]%Z [100.0] [8.0] = inr s1 ∧
    river_arrays small_grid [(1, 2, 0)]%Z [100.0] [0.1] = inr s2 ∧
    ([100.0] = [100.0] → s1.1 = s2.1) ∧ ([8.0] = [0.1] → s1.2 = s2.2).
Proof.
  eexists _, _. split; [vm_compute; reflexivity|]. split; [vm_compute; reflexivity|].
  apply (river_flux_and_value_independent small_grid [(1, 2, 0)]%Z
           [100.0] [100.0] [8.0] [0.1]); reflexivity.
Defined.

(** ** Complete runs of the river file *)

Lemma for_each_log_inv {A} (P : event → Prop) (body : A → M unit) (l : list A) :
  (∀ x log, In x l → ∃ evs r, body x log = (log ++ evs, r) ∧ Forall P evs) →
  ∀ log, ∃ evs r, for_each l body log = (log ++ evs, r) ∧ Forall P evs.
Proof.
  induction l as [|x l IH]; intros Hbody log.
  - exists [], (inr ()). split; [|done]. simpl. by rewrite app_nil_r.
  - cbn [for_each]. rewrite run_bind.
    destruct (Hbody x log (or_introl eq_refl)) as (evs & r & -> & Hevs).
    destruct r as [e|[]]; [by exists evs, (inl e)|].
    destruct (IH (λ y log' Hy, Hbody y log' (or_intror Hy)) (log ++ evs))
      as (evs' & r' & -> & Hevs').
    exists (evs ++ evs'), r'. rewrite <- app_assoc. split; [done|].
    by apply Forall_app.
Qed.

Lemma for_each_zip {A B} (R : A → B → Prop) (evs : A → B → list event)
    (body : A → M unit) (l : list A) :
  (∀ x, In x l → ∃ y, R x y ∧ ∀ log, body x log = (log ++ evs x y, inr ())) →
  ∀ log, ∃ ys, Forall2 R l ys ∧
    for_each l body log = (log ++ concat (zip_with evs l ys), inr ()).
Proof.
  induction l as [|x l IH]; intros Hbody log.
  - exists []. split; [constructor|]. simpl. by rewrite app_nil_r.
  - destruct (Hbody x (or_introl eq_refl)) as (y & Hxy & Hrun).
    destruct (IH (λ z Hz, Hbody z (or_intror Hz)) (log ++ evs x y))
      as (ys & Hys & Hloop).
    exists (y :: ys). split; [by constructor|].
    cbn [for_each]. rewrite run_bind, Hrun, Hloop. simpl. by rewrite <- app_assoc.
Qed.

(** The run of [create_river_file] up to the loop that builds the
    arrays. *)
Lemma run_river_prelude self filepath locs props log :
  create_river_file self filepath locs props log
  = match dict_get props "discharge" with
    | inl e => (log ++ open_log self filepath, inl e)
    | inr d =>
        if (length d =? length locs)%nat then
          match find (offending props (length locs)) (river_tracers props) with
          | Some tracer => (log ++ open_log self filepath, inl (MismatchedLengths tracer))
          | None =>
              match for_each (river_tracers props) (river_tracer self locs props d)
                             (log ++ open_log self filepath) with
              | (log', inl e) => (log', inl e)
              | (log', inr _) => (log' ++ river_closing_log, inr ())
              end
          end
        else (log ++ open_log self filepath,
              inl (MismatchedLengths "discharge"))
    end.
Proof.
  unfold create_river_file. rewrite run_bind, run_open_dataset_at.
  rewrite run_bind. destruct (dict_get props "discharge") as [e|d]; [done|].
  cbn [lift mret M_ret]. rewrite run_bind.
  destruct (length d =? length locs)%nat; cbn [assert mret M_ret raise]; [|done].
  rewrite run_bind, validation_loop by apply river_tracers_keys.
  destruct (find _ _); [done|]. rewrite run_bind.
  destruct (for_each _ _ _) as [log' [e|[]]]; [done|].
  do 3 run_step. unfold emit, river_closing_log. by rewrite <- !app_assoc.
Qed.

Lemma dict_get_missing {A} (d : list (string * A)) key :
  ¬ In key (keys d) → dict_get d key = inl (KeyError key).
Proof.
  induction d as [|[k v] d IH]; simpl; [done|]. intros Hnot.
  destruct (String.eqb_spec k key) as [->|Hne]; [tauto|]. apply IH. tauto.
Qed.

(** X20. Without a ['discharge'] entry in the river properties the river
    build raises [KeyError] for that key; at that point the dataset, its
    dimensions and the time variable have been created, and nothing
    else. *)
Theorem missing_discharge_raises_key_error self filepath locs props :
  ¬ In "discharge" (keys props) →
  create_river_file self filepath locs props []
  = (open_log self filepath, inl (KeyError "discharge")).
Proof.
  intros Hmissing. by rewrite run_river_prelude, dict_get_missing.
Qed.

Lemma missing_discharge_raises_key_error_witness :
  create_river_file small_grid "rivers.nc" [(1, 1, 0)%Z] [("T", [8.0])] []
  = (open_log small_grid "rivers.nc", inl (KeyError "discharge")).
Proof.
  apply (missing_discharge_raises_key_error small_grid "rivers.nc" [(1, 1, 0)%Z]
           [("T", [8.0])]).
  simpl. intros [H|[]]. discriminate H.
Defined.

(** X21. With no tracer besides the discharge, and as many discharge
    values as sites, the river build returns normally whatever the
    sites: no variable is created, no array is allocated, and the
    coordinates of the sites are never looked at. *)
Theorem river_file_without_tracers self filepath locs props d :
  dict_get props "discharge" = inr d → length d = length locs →
  river_tracers props = [] →
  create_river_file self filepath locs props []
  = (open_log self filepath ++ river_closing_log, inr ()).
Proof.
  intros Hd Hlen Hnone. rewrite run_river_prelude, Hd, Hlen, Nat.eqb_refl, Hnone.
  reflexivity.
Qed.

Lemma river_file_without_tracers_witness :
  create_river_file small_grid "rivers.nc" [(7, 7, 7)%Z] [("discharge", [100.0])] []
  = (open_log small_grid "rivers.nc" ++ river_closing_log, inr ()).
Proof.
  apply (river_file_without_tracers small_grid "rivers.nc" [(7, 7, 7)%Z]
           [("discharge", [100.0])] [100.0]); reflexivity.
Defined.

Lemma river_stats_ok self locs d vals s :
  positive_grid self → river_arrays self locs d vals = inr s → river_stats s.1 = inr ().
Proof.
  intros (Ht & Hz & Hy & Hx) Hs.
  destruct (river_loop_pointwise _ _ _ _ _ _ _ Hs 0 0 0)%nat as (g1 & g2 & Hg).
  destruct (Hg 0%nat) as [H1 _]. cbn [fst snd] in H1. unfold shape in H1.
  rewrite cell_full in H1 by lia. unfold river_stats.
  destruct s.1; [|done]. unfold cell in H1. by rewrite lookup_nil in H1.
Qed.

Lemma run_river_file_ok self filepath locs props d log :
  positive_grid self → dict_get props "discharge" = inr d → length d = length locs →
  (∀ tracer vals, In tracer (river_tracers props) →
     dict_get props tracer = inr vals → length vals = length locs) →
  Forall (site_indexable self) locs →
  ∃ arrays,
    Forall2 (λ tracer s, ∃ vals, dict_get props tracer = inr vals ∧
                                 river_arrays self locs d vals = inr s)
            (river_tracers props) arrays ∧
    create_river_file self filepath locs props log
    = (log ++ open_log self filepath
         ++ concat (zip_with (river_tracer_log self) (river_tracers props) arrays)
         ++ river_closing_log, inr ()).
Proof.
  intros Hpos Hd Hlen Hvals Hsites.
  rewrite run_river_prelude, Hd, Hlen, Nat.eqb_refl, validation_passes by done.
  destruct (for_each_zip
    (λ tracer s, ∃ vals, dict_get props tracer = inr vals ∧
                         river_arrays self locs d vals = inr s)
    (river_tracer_log self) (river_tracer self locs props d) (river_tracers props))
    with (log := log ++ open_log self filepath) as (arrays & Harrays & Hrun).
  { intros tracer Hin.
    destruct (dict_get_keys props tracer (river_tracers_keys _ _ Hin)) as [vals Hv].
    pose proof (Hvals _ _ Hin Hv) as Hlv.
    destruct (river_arrays_ok self locs d vals Hsites) as [s Hs]; [lia|lia|].
    exists s. split; [by exists vals|]. intros log'.
    rewrite (run_river_tracer self locs props d tracer vals)
      by (done || by apply positive_grid_valid).
    by rewrite Hs, (river_stats_ok _ _ _ _ _ Hpos Hs). }
  exists arrays. split; [done|]. rewrite Hrun. by rewrite <- !app_assoc.
Qed.

(** X22. On a grid with positive extents, with as many discharge values
    and as many values of every tracer as there are sites, and every
    component of every site in [-extent, extent), the river build returns
    normally, and its events are, in this order: the dataset, its
    dimensions and the time variable; for each key other than
    ['discharge'], in the order of the dict, the flux and the value
    variable, the allocation of the two arrays and the writing of the
    arrays built from the discharges and the values of that key; the
    three attributes; the closing of the dataset. *)
Theorem river_file_complete self filepath locs props d :
  positive_grid self → dict_get props "discharge" = inr d → length d = length locs →
  (∀ tracer vals, In tracer (river_tracers props) →
     dict_get props tracer = inr vals → length vals = length locs) →
  Forall (site_indexable self) locs →
  ∃ arrays,
    Forall2 (λ tracer s, ∃ vals, dict_get props tracer = inr vals ∧
                                 river_arrays self locs d vals = inr s)
            (river_tracers props) arrays ∧
    create_river_file self filepath locs props []
    = (open_log self filepath
         ++ concat (zip_with (river_tracer_log self) (river_tracers props) arrays)
         ++ river_closing_log, inr ()).
Proof. apply run_river_file_ok. Qed.

Lemma river_file_complete_witness :
  ∃ arrays,
    Forall2 (λ tracer s, ∃ vals,
               dict_get [("discharge", [100.0; 50.0]); ("T", [8.0; 7.0])] tracer = inr vals ∧
               river_arrays small_grid [(1, 1, 0); (-1, 2, 0)]%Z [100.0; 50.0] vals = inr s)
            (river_tracers [("discharge", [100.0; 50.0]); ("T", [8.0; 7.0])]) arrays ∧
    create_river_file small_grid "rivers.nc" [(1, 1, 0); (-1, 2, 0)]%Z
      [("discharge", [100.0; 50.0]); ("T", [8.0; 7.0])] []
    = (open_log small_grid "rivers.nc"
         ++ concat (zip_with (river_tracer_log small_grid)
                      (river_tracers [("discharge", [100.0; 50.0]); ("T", [8.0; 7.0])])
                      arrays)
         ++ river_closing_log, inr ()).
Proof.
  apply (river_file_complete small_grid "rivers.nc" [(1, 1, 0); (-1, 2, 0)]%Z
           [("discharge", [100.0; 50.0]); ("T", [8.0; 7.0])] [100.0; 50.0]).
  - unfold positive_grid. simpl. lia.
  - reflexivity.
  - reflexivity.
  - intros tracer vals [<-|[]]. by intros [= <-].
  - repeat constructor; unfold indexable; simpl; lia.
Defined.

Lemma river_tracer_events self locs props d tracer log :
  valid_shape self → In tracer (river_tracers props) →
  ∃ evs r, river_tracer self locs props d tracer log = (log ++ evs, r) ∧
           Forall (river_tracer_event tracer) evs.
Proof.
  intros Hshape Hin.
  destruct (dict_get_keys props tracer (river_tracers_keys _ _ Hin)) as [vals Hv].
  rewrite (run_river_tracer self locs props d tracer vals) by done.
  destruct (river_arrays self locs d vals) as [e|s]; eexists _, _; (split; [done|]);
    repeat (apply Forall_cons; split; [unfold river_tracer_event; eauto 10|]);
    by apply Forall_nil.
Qed.

(** The calls of a river build on the dataset: the opening, events of
    tracers, and the closing exactly when the build returns. *)
Lemma river_file_log self filepath locs props :
  valid_shape self →
  ∃ evs,
    Forall (λ ev, ∃ tracer, In tracer (river_tracers props) ∧
                            river_tracer_event tracer ev) evs ∧
    (create_river_file self filepath locs props []
     = (open_log self filepath ++ evs ++ river_closing_log, inr ()) ∨
     ∃ e, create_river_file self filepath locs props []
          = (open_log self filepath ++ evs, inl e)).
Proof.
  intros Hshape. rewrite run_river_prelude.
  destruct (dict_get props "discharge") as [e|d].
  { exists []. split; [done|]. right. exists e. by rewrite app_nil_r. }
  destruct (length d =? length locs)%nat.
  2: { exists []. split; [done|]. right. eexists. by rewrite app_nil_r. }
  destruct (find _ _) as [tracer|].
  { exists []. split; [done|]. right. eexists. by rewrite app_nil_r. }
  destruct (for_each_log_inv
    (λ ev, ∃ tracer, In tracer (river_tracers props) ∧ river_tracer_event tracer ev)
    (river_tracer self locs props d) (river_tracers props))
    with (log := [] ++ open_log self filepath) as (evs & r & Hrun & Hevs).
  { intros tracer log Hin.
    destruct (river_tracer_events self locs props d tracer log Hshape Hin)
      as (evs & r & Hrun & Hevs).
    exists evs, r. split; [done|]. eapply Forall_impl; [exact Hevs|].
    intros ev Hev. by exists tracer. }
  exists evs. split; [done|]. rewrite Hrun.
  destruct r as [e|[]]; [right; by exists e|left]. by rewrite <- app_assoc.
Qed.

(** X23. The river build closes the dataset only at its very end: when
    it returns normally the last call on the dataset is the closing, and
    when it raises, the dataset, already created, has not been closed. *)
Theorem river_file_closed_iff_returns self filepath locs props :
  valid_shape self →
  let run := create_river_file self filepath locs props [] in
  (run.2 = inr () → last run.1 = Some CloseDataset) ∧
  (∀ e, run.2 = inl e → (CreateDataset filepath ∈ run.1) ∧ (CloseDataset ∉ run.1)).
Proof.
  intros Hshape run. subst run.
  destruct (river_file_log self filepath locs props Hshape)
    as (evs & Hevs & [Hrun|[e Hrun]]); rewrite Hrun; cbn [fst snd].
  - split; [|done]. intros _. unfold river_closing_log.
    change [SetAttr "title"; SetAttr "created"; SetAttr "number_of_rivers"; CloseDataset]
      with ([SetAttr "title"; SetAttr "created"; SetAttr "number_of_rivers"]
              ++ [CloseDataset]).
    rewrite !app_assoc. apply last_snoc.
  - split; [done|]. intros e' _. split; [by left|].
    rewrite not_elem_of_app. split; [apply closing_not_in_open_log|].
    intros Hin. rewrite Forall_forall in Hevs.
    destruct (Hevs _ Hin) as (tracer & _ & Hev).
    destruct Hev as [[? ?]|[[? ?]|[(? & ? & ?)|[[? ?]|[? ?]]]]]; discriminate.
Qed.

Lemma river_file_closed_iff_returns_witness :
  let run := create_river_file small_grid "rivers.nc" [(7, 7, 7)%Z]
               [("discharge", [100.0]); ("T", [8.0])] [] in
  (run.2 = inr () → last run.1 = Some CloseDataset) ∧
  (∀ e, run.2 = inl e → (CreateDataset "rivers.nc" ∈ run.1) ∧ (CloseDataset ∉ run.1)).
Proof.
  apply (river_file_closed_iff_returns small_grid "rivers.nc" [(7, 7, 7)%Z]
           [("discharge", [100.0]); ("T", [8.0])]).
  unfold valid_shape. simpl. lia.
Defined.

Lemma string_length_append (s1 s2 : string) :
  String.length (s1 ++ s2)%string = (String.length s1 + String.length s2)%nat.
Proof. induction s1 as [|c s1 IH]; simpl; [done|]. by rewrite IH. Qed.

Lemma flux_name_not_discharge (name : string) : (name ++ "_flux")%string ≠ "discharge".
Proof.
  intros Heq. pose proof (f_equal String.length Heq) as Hlen.
  rewrite string_length_append in Hlen. simpl in Hlen.
  destruct name as [|c1 [|c2 [|c3 [|c4 [|c5 name]]]]]; simpl in Hlen; try lia.
  simpl in Heq. discriminate.
Qed.

Lemma river_tracers_not_discharge props tracer :
  In tracer (river_tracers props) → tracer ≠ "discharge".
Proof.
  unfold river_tracers. rewrite filter_In. intros [_ Hne] ->.
  by rewrite String.eqb_refl in Hne.
Qed.

(** X24. The discharge is never written as a variable of its own: no
    call of a river build creates or writes a variable named
    ['discharge']. *)
Theorem river_file_has_no_discharge_variable self filepath locs props :
  valid_shape self →
  ∀ fv a,
    (CreateVariable "discharge" fv ∉ (create_river_file self filepath locs props []).1) ∧
    (WriteVariable "discharge" a ∉ (create_river_file self filepath locs props []).1).
Proof.
  intros Hshape fv a.
  assert (∀ ev, (ev = CreateVariable "discharge" fv ∨ ev = WriteVariable "discharge" a) →
            (ev ∉ open_log self filepath) ∧ (ev ∉ river_closing_log)) as Hfixed.
  { intros ev Hev. unfold open_log, river_closing_log.
    rewrite !not_elem_of_cons. destruct Hev as [->| ->]; repeat (split; try done);
      apply not_elem_of_nil. }
  assert (∀ ev evs, (ev = CreateVariable "discharge" fv ∨ ev = WriteVariable "discharge" a) →
            Forall (λ ev, ∃ tracer, In tracer (river_tracers props) ∧
                                    river_tracer_event tracer ev) evs →
            ev ∉ evs) as Htracers.
  { intros ev evs Hev Hevs Hin. rewrite Forall_forall in Hevs.
    destruct (Hevs _ Hin) as (tracer & Htr & Hte).
    apply river_tracers_not_discharge in Htr.
    destruct Hte as [[? ->]|[[? ->]|[(? & ? & ->)|[[? ->]|[? ->]]]]];
      destruct Hev as [[=]|[=]]; try done; by eapply flux_name_not_discharge. }
  destruct (river_file_log self filepath locs props Hshape)
    as (evs & Hevs & [Hrun|[e Hrun]]); rewrite Hrun; cbn [fst snd];
    rewrite !not_elem_of_app; repeat split;
    (apply Hfixed || apply Htracers); auto.
Qed.

Lemma river_file_has_no_discharge_variable_witness :
  (CreateVariable "discharge" (Some 0.0)
     ∉ (create_river_file small_grid "rivers.nc" [(1, 1, 0)%Z]
          [("discharge", [100.0]); ("T", [8.0])] []).1) ∧
  (WriteVariable "discharge" []
     ∉ (create_river_file small_grid "rivers.nc" [(1, 1, 0)%Z]
          [("discharge", [100.0]); ("T", [8.0])] []).1).
Proof.
  apply (river_file_has_no_discharge_variable small_grid "rivers.nc" [(1, 1, 0)%Z]
           [("discharge", [100.0]); ("T", [8.0])]).
  unfold valid_shape. simpl. lia.
Defined.

(** ** Runs of the example callers *)

(** A boundary build followed by a river build on the same generator. *)
Lemma run_both_files self path1 dict bw path2 locs props d log :
  positive_grid self → (1 ≤ bw)%Z → Forall (λ item, forced item.2) dict →
  dict_get props "discharge" = inr d → length d = length locs →
  (∀ tracer vals, In tracer (river_tracers props) →
     dict_get props tracer = inr vals → length vals = length locs) →
  Forall (site_indexable self) locs →
  ∃ arrays, length arrays = length (river_tracers props) ∧
    (create_boundary_file self path1 dict bw ;;
     create_river_file self path2 locs props) log
    = (log ++ (open_log self path1 ++ concat (boundary_tracer_log self bw <$> dict)
               ++ boundary_closing_log)
           ++ (open_log self path2
               ++ concat (zip_with (river_tracer_log self) (river_tracers props) arrays)
               ++ river_closing_log), inr ()).
Proof.
  intros Hpos Hbw Hforced Hd Hlen Hvals Hsites.
  rewrite run_bind, run_boundary_file_ok by done.
  destruct (run_river_file_ok self path2 locs props d
    (log ++ open_log self path1 ++ concat (boundary_tracer_log self bw <$> dict)
         ++ boundary_closing_log) Hpos Hd Hlen Hvals Hsites)
    as (arrays & Harrays & Hrun).
  exists arrays. split; [symmetry; by eapply Forall2_length|].
  rewrite Hrun. by rewrite <- !app_assoc.
Qed.

(** X25. The Isafjardardjup example runs to its end without raising: it
    creates the boundary file and then the river file, closes both, and
    the variables it creates are the time axis, [T], [T_lambda], [S],
    [S_lambda] in the first and the time axis, [T_flux], [T], [S_flux],
    [S] in the second. *)
Theorem example_isafjardardjup_completes :
  ∃ log, example_isafjardardjup [] = (log, inr ()) ∧
    datasets_created log = ["Isf_boundary_conditions.nc"; "Isf_river_forcing.nc"] ∧
    variables_created log
    = ["time"; "T"; "T_lambda"; "S"; "S_lambda"; "time"; "T_flux"; "T"; "S_flux"; "S"] ∧
    datasets_closed log = 2%nat ∧ last log = Some CloseDataset.
Proof.
  cbv beta iota zeta delta [example_isafjardardjup].
  rewrite run_bind, init_times by (intros H; vm_compute in H; discriminate).
  cbn [lift mret M_ret].
  match goal with |- context [create_boundary_file ?g _ _ _] => set (generator := g) end.
  match goal with |- context [create_river_file _ _ ?l ?p] =>
    destruct (run_both_files generator "Isf_boundary_conditions.nc"
      [("T", {| west := Some 8.0; east := Some 8.5; north := Some 7.5;
                south := Some 9.0; lambda := Some 1e-4 |});
       ("S", {| west := Some 34.5; east := Some 34.7; north := Some 34.2;
                south := Some 34.8; lambda := Some 1e-4 |})] 10
      "Isf_river_forcing.nc" l p [100.0; 50.0; 30.0] [])
      as (arrays & Hlen & Hrun)
  end.
  - unfold positive_grid. simpl. lia.
  - lia.
  - repeat constructor; by exists West.
  - reflexivity.
  - reflexivity.
  - intros tracer vals [<-|[<-|[]]]; by intros [= <-].
  - repeat constructor; unfold indexable; simpl; lia.
  - destruct arrays as [|s1 [|s2 [|s3 arrays]]]; try discriminate Hlen.
    eexists. split; [exact Hrun|].
    repeat split; reflexivity.
Qed.

(** X26. The custom-domain template runs to its end without raising: it
    creates the boundary file and then the river file, closes both, and
    the variables it creates are the time axis, [T], [T_lambda], [S],
    [S_lambda] in the first and the time axis, [T_flux], [T], [S_flux],
    [S] in the second. *)
Theorem example_custom_domain_completes :
  ∃ log, example_custom_domain [] = (log, inr ()) ∧
    datasets_created log = ["my_boundary_conditions.nc"; "my_river_forcing.nc"] ∧
    variables_created log
    = ["time"; "T"; "T_lambda"; "S"; "S_lambda"; "time"; "T_flux"; "T"; "S_flux"; "S"] ∧
    datasets_closed log = 2%nat ∧ last log = Some CloseDataset.
Proof.
  cbv beta iota zeta delta [example_custom_domain].
  rewrite run_bind, init_times by (intros H; vm_compute in H; discriminate).
  cbn [lift mret M_ret].
  match goal with |- context [create_boundary_file ?g _ _ _] => set (generator := g) end.
  match goal with |- context [create_river_file _ _ ?l ?p] =>
    destruct (run_both_files generator "my_boundary_conditions.nc"
      [("T", {| west := Some 10.0; east := Some 11.0; north := Some 10.5;
                south := Some 10.2; lambda := Some 1e-4 |});
       ("S", {| west := Some 35.0; east := Some 35.2; north := Some 34.8;
                south := Some 35.1; lambda := Some 1e-4 |})] 10
      "my_river_forcing.nc" l p [150.0; 80.0] [])
      as (arrays & Hlen & Hrun)
  end.
  - unfold positive_grid. simpl. lia.
  - lia.
  - repeat constructor; by exists West.
  - reflexivity.
  - reflexivity.
  - intros tracer vals [<-|[<-|[]]]; by intros [= <-].
  - repeat constructor; unfold indexable; simpl; lia.
  - destruct arrays as [|s1 [|s2 [|s3 arrays]]]; try discriminate Hlen.
    eexists. split; [exact Hrun|].
    repeat split; reflexivity.
Qed.

(** ** Sanity checks on small inputs *)

Example rate_at_corner :
  Qred <$> cell (boundary_arrays small_grid cfg_west_south 2).2 0 0 0 0 = Some 1e-4.
Proof. reflexivity. Qed.

Example rate_half_way :
  Qred <$> cell (boundary_arrays small_grid cfg_west_south 2).2 0 0 2 1 = Some (1 # 20000).
Proof. reflexivity. Qed.

Example rate_outside_buffers :
  cell (boundary_arrays small_grid cfg_west_south 2).2 0 0 2 2 = Some 0.
Proof. reflexivity. Qed.

Example value_at_corner :
  cell (boundary_arrays small_grid cfg_west_south 2).1 0 0 0 0 = Some 9.0.
Proof. reflexivity. Qed.

Example value_west_only :
  cell (boundary_arrays small_grid cfg_west_south 2).1 0 0 2 0 = Some 10.0.
Proof. reflexivity. Qed.

Example later_site_overwrites :
  river_arrays small_grid [(1, 1, 0)%Z; (1, 1, 0)%Z] [5; 6] [7; 8]
  = inr ([[[[0; 0; 0]; [0; 6; 0]; [0; 0; 0]]]],
         [[[[-999.0; -999.0; -999.0]; [-999.0; 8; -999.0]; [-999.0; -999.0; -999.0]]]]).
Proof. reflexivity. Qed.

Example three_hourly_offsets :
  (self ← __init__ 3 3 1 "2024-01-01" 1.0 3; mret (Qred <$> times self))
  = inr [0; 3600; 7200].
Proof. reflexivity. Qed.

(** ** Sanity checks in binary64 *)

(** The time axes of the two example callers are the exact ones. *)
Lemma binary64_example_times :
  Binary64.times_exact 1 168 = true ∧ Binary64.times_exact 1 24 = true.
Proof. split; vm_compute; reflexivity. Qed.

Example binary64_rates_small_grid :
  (Binary64.boundary_arrays Binary64.small_grid Binary64.cfg_west_south 2).2
  = [[[[1e-4; 1e-4; 1e-4]; [1e-4; 5e-5; 5e-5]; [1e-4; 5e-5; 0]]]]%float.
Proof. vm_compute. reflexivity. Qed.

Example binary64_rates_underflow :
  (Binary64.boundary_arrays Binary64.small_grid Binary64.cfg_tiny_lambda 2).2
  = [[[[5e-324; 5e-324; 5e-324]; [5e-324; 0; 0]; [5e-324; 0; 0]]]]%float.
Proof. vm_compute. reflexivity. Qed.
